(** * DwiSlpy: the static checker and the interpreter of the AST

    A shallow embedding of [dwislpy-check.cc] (the [chck] methods) and of the
    interpreter half of [dwislpy-ast.cc] ([Prgm::run], [Blck::exec],
    [Stmt::exec], [Expn::eval]), over the class hierarchy declared in
    [dwislpy-ast.hh].

    Conventions of the embedding.
    - A C++ [throw] becomes the result [Raise e]; the exception classes that
      can travel are the constructors of [Exn].
    - Dereferencing a null [shared_ptr] is undefined behaviour; it is modelled
      as the fault [Raise NullDeref].
    - Source locations ([Locn], [where()]) only travel inside error reports
      and never influence control flow, so the nodes do not carry them.
    - [std::unordered_map] is a [gmap]; [std::vector] is a [list]. *)

From Stdlib Require Import ZArith DecimalString DecimalPos Lia.
From stdpp Require Import gmap strings list.

Local Open Scope string_scope.

#[local] Set Warnings "-register-all".

(** ** Exceptions and results *)

Inductive Exn : Type :=
| DwislpyError (msg : string)   (* throw DwislpyError {where(), msg} *)
| logic_error (msg : string)    (* throw std::logic_error(msg) *)
| bad_variant_access            (* std::get<T> on a variant holding another tag *)
| out_of_range                  (* std::stoi on a numeral that does not fit an int *)
| NullDeref                     (* dereference of a null shared_ptr *)
| NoMark                        (* SymT::pop_until_mark without a matching mark *)
| OutOfFuel.                    (* the interpreter model ran out of fuel *)

Inductive Res (A : Type) : Type :=
| Ok (a : A)
| Raise (e : Exn).
Arguments Ok {A} a.
Arguments Raise {A} e.

Global Instance Res_ret : MRet Res := fun A a => Ok a.
Global Instance Res_bind : MBind Res := fun A B k m =>
  match m with
  | Ok a => k a
  | Raise e => Raise e
  end.

Definition is_Ok {A : Type} (m : Res A) : bool :=
  match m with Ok _ => true | Raise _ => false end.

(** ** Types and return behaviours (the variants of [dwislpy-check.hh]) *)

Inductive Ty : Type := IntTy | StrTy | BoolTy | NoneTy.

Global Instance Ty_eq_dec : EqDecision Ty.
Proof. solve_decision. Defined.

Definition INT_T : Ty := IntTy.
Definition STR_T : Ty := StrTy.
Definition BOOL_T : Ty := BoolTy.
Definition NONE_T : Ty := NoneTy.

Inductive Rtns : Type :=
| RVoid
| RVoidOr (type : Ty)
| RType (type : Ty).

Definition get_type_str (type : Ty) : string :=
  match type with
  | IntTy => "int"
  | StrTy => "str"
  | BoolTy => "bool"
  | NoneTy => "None"
  end.

Definition is_int (type : Ty) : bool := match type with IntTy => true | _ => false end.
Definition is_str (type : Ty) : bool := match type with StrTy => true | _ => false end.
Definition is_bool (type : Ty) : bool := match type with BoolTy => true | _ => false end.
Definition is_None (type : Ty) : bool := match type with NoneTy => true | _ => false end.

(** [operator==] and [operator!=] on [Type]. *)
Definition ty_eq (type1 type2 : Ty) : bool :=
  if is_int type1 && is_int type2 then true
  else if is_str type1 && is_str type2 then true
  else if is_bool type1 && is_bool type2 then true
  else if is_None type1 && is_None type2 then true
  else false.

Definition ty_ne (type1 type2 : Ty) : bool := negb (ty_eq type1 type2).

Definition type_name (type : Ty) : string :=
  if is_int type then "int"
  else if is_str type then "str"
  else if is_bool type then "bool"
  else if is_None type then "None"
  else "wtf".

Definition type_of (rtns : Rtns) : Ty :=
  match rtns with
  | RVoidOr t => t
  | RType t => t
  | RVoid => NONE_T
  end.

Definition holds_Void (rtns : Rtns) : bool :=
  match rtns with RVoid => true | _ => false end.
Definition holds_VoidOr (rtns : Rtns) : bool :=
  match rtns with RVoidOr _ => true | _ => false end.
Definition holds_Type (rtns : Rtns) : bool :=
  match rtns with RType _ => true | _ => false end.

Definition has_void (rtns : Rtns) : bool := holds_Void rtns || holds_VoidOr rtns.

(** [std::to_string] on an index or a size. *)
Definition to_string_nat (n : nat) : string := NilZero.string_of_uint (Nat.to_uint n).

(** ** The symbol table *)

Definition Name : Type := string.

Record SymInfo : Type := mkSymInfo { sym_name : Name; sym_type : Ty }.

(** Modelled from the spec: the class [SymT] of [dwislpy-check.hh], which is
    not part of the sources at hand.  The table is a stack of scope frames,
    each a mapping from name to [SymInfo]: [outer] is the frame the table is
    created with (it holds the formal parameters of a definition), [marks]
    are the frames pushed by [mark], innermost first.  [frmls] is the ordered
    list of formals that [get_frml] and [get_frmls_size] read. *)
Record SymT : Type := mkSymT {
  frmls : list SymInfo;
  outer : gmap Name SymInfo;
  marks : list (gmap Name SymInfo)
}.

Module SymTable.

(** Modelled from the spec: the table [SymT {}] a program starts with. *)
Definition empty : SymT := mkSymT [] ∅ [].

(** Modelled from the spec: a fresh table pre-seeded with the formal
    parameters, which occupy the outermost frame. *)
Definition of_frmls (fs : list SymInfo) : SymT :=
  mkSymT fs (foldl (fun m i => <[sym_name i := i]> m) ∅ fs) [].

Definition get_frmls_size (symt : SymT) : nat := length (frmls symt).
Definition get_frml (i : nat) (symt : SymT) : option SymInfo := frmls symt !! i.

(** Modelled from the spec: [mark] pushes a new empty frame. *)
Definition mark (symt : SymT) : SymT :=
  mkSymT (frmls symt) (outer symt) (∅ :: marks symt).

(** Modelled from the spec: [pop_until_mark] discards the frame of the most
    recent mark; without a matching mark it fails. *)
Definition pop_until_mark (symt : SymT) : option SymT :=
  match marks symt with
  | [] => None
  | _ :: ms => Some (mkSymT (frmls symt) (outer symt) ms)
  end.

(** The current innermost frame. *)
Definition current (symt : SymT) : gmap Name SymInfo :=
  match marks symt with
  | [] => outer symt
  | f :: _ => f
  end.

Definition set_current (f : gmap Name SymInfo) (symt : SymT) : SymT :=
  match marks symt with
  | [] => mkSymT (frmls symt) f []
  | _ :: ms => mkSymT (frmls symt) (outer symt) (f :: ms)
  end.

(** Modelled from the spec: [is_redefining] looks at the current innermost
    frame only. *)
Definition is_redefining (name : Name) (symt : SymT) : bool :=
  bool_decide (is_Some (current symt !! name)).

(** Modelled from the spec: [add_locl] introduces the name in the current
    scope and does not check for a redefinition itself. *)
Definition add_locl (name : Name) (type : Ty) (symt : SymT) : SymT :=
  set_current (<[name := mkSymInfo name type]> (current symt)) symt.

(** Modelled from the spec: [get_info] searches the frames from the
    innermost to the outermost. *)
Fixpoint lookup_frames (name : Name) (fs : list (gmap Name SymInfo)) : option SymInfo :=
  match fs with
  | [] => None
  | f :: fs' =>
      match f !! name with
      | Some i => Some i
      | None => lookup_frames name fs'
      end
  end.

Definition get_info (name : Name) (symt : SymT) : option SymInfo :=
  lookup_frames name (marks symt ++ [outer symt]).

Definition has_info (name : Name) (symt : SymT) : bool :=
  bool_decide (is_Some (get_info name symt)).

End SymTable.

(** ** Dynamic values *)

Inductive Valu : Type :=
| VInt (n : Z)
| VBool (b : bool)
| VStr (s : string)
| VNone.

(** ** Expressions (the subclasses of [Expn]) *)

Inductive Expn : Type :=
| Plus (lf rg : Expn)
| Mnus (lf rg : Expn)
| Tmes (lf rg : Expn)
| IDiv (lf rg : Expn)
| IMod (lf rg : Expn)
| Imus (expn : Expn)
| Inif (if_br cond else_br : Expn)
| Negt (expn : Expn)
| Conj (lft rht : Expn)
| Disj (lft rht : Expn)
| Cmlt (lft rht : Expn)
| Cmgt (lft rht : Expn)
| Cmeq (lft rht : Expn)
| Cmle (lft rht : Expn)
| Cmge (lft rht : Expn)
| FCll (name : Name) (args : list Expn)
| Ltrl (valu : Valu)
| Lkup (name : Name)
| Inpt (expn : Expn)
| IntC (expn : Expn)
| StrC (expn : Expn).


(** ** Statements (the subclasses of [Stmt]), blocks, definitions, programs

    A [Blck] is its vector [stmts].  The members of [Cond::ifcds] are only
    read through their fields [cond] and [body], whether they were built as
    [Ifcd] or as [Elif], so they are pairs here; [Cond::els] is read through
    [els->body], and is [None] when the node was built by the constructor
    without an alternative ([els {nullptr}]).  [Expn] derives from [Stmt]:
    [ExpnS] is an expression standing in a block, with its flag
    [is_statement].  [FRtn::expn] may be null, [FRtn::chck] tests it. *)

Inductive Stmt : Type :=
| Asgn (name : Name) (expn : Expn)
| Ntro (name : Name) (type : Ty) (expn : Expn)
| Pleq (name : Name) (expn : Expn)
| Mneq (name : Name) (expn : Expn)
| Cond (ifcds : list (Expn * list Stmt)) (els : option (list Stmt))
| Ifcd (cond : Expn) (body : list Stmt)
| Else (body : list Stmt)
| Elif (cond : Expn) (body : list Stmt)
| Whil (cond : Expn) (body : list Stmt)
| Rept (cond : Expn) (body : list Stmt)
| FRtn (expn : option Expn)
| PRtn
| Prnt (expns : list Expn)
| Pass
| PCll (name : Name) (args : list Expn)
| ExpnS (is_statement : bool) (e : Expn).

Definition Blck : Type := list Stmt.

Record Defn : Type := mkDefn {
  defn_name : Name;
  args : SymT;
  body : Blck;
  ret_type : Ty
}.

Definition Defs : Type := gmap Name Defn.

Record Prgm : Type := mkPrgm {
  defs : Defs;
  main : option Blck;
  main_symt : SymT
}.

Definition arity (d : Defn) : nat := SymTable.get_frmls_size (args d).
Definition returns (d : Defn) : Ty := ret_type d.
Definition formal (i : nat) (d : Defn) : option SymInfo := SymTable.get_frml i (args d).

(** ** The expression checker *)

Section Checker.

Variable defs : Defs.

(** The binary operators whose operands must both be [int]. *)
Definition chck_int_int (left_ty rght_ty : Ty) (result : Ty) (msg : string) : Res Ty :=
  if is_int left_ty && is_int rght_ty then Ok result
  else Raise (DwislpyError msg).

Definition chck_bool_bool (left_ty rght_ty : Ty) (msg : string) : Res Ty :=
  if is_bool left_ty && is_bool rght_ty then Ok BOOL_T
  else Raise (DwislpyError msg).

(** The loop of [FCll::chck] and [PCll::chck] over the argument positions
    [i .. arity-1]; the arity test before it makes both lists equally
    long. *)
Definition chck_args_with (chck : Expn -> Res Ty) (sep : string) :
    nat -> list SymInfo -> list Expn -> Res unit :=
  fix loop (i : nat) (fmls : list SymInfo) (actuals : list Expn) {struct actuals} : Res unit :=
    match actuals, fmls with
    | arg :: actuals', fm :: fmls' =>
        let fm_arg_tp := sym_type fm in
        ac_arg_tp ← chck arg;
        if ty_ne fm_arg_tp ac_arg_tp then
          Raise (DwislpyError ("The argument at " +:+ to_string_nat i +:+
                               " should have type " +:+ get_type_str fm_arg_tp +:+
                               sep +:+ get_type_str ac_arg_tp))
        else loop (S i) fmls' actuals'
    | _, _ => Ok tt
    end.

Definition chck_call_with (chck : Expn -> Res Ty) (sep : string)
    (name : Name) (actuals : list Expn) : Res Defn :=
  match defs !! name with
  | None => Raise (DwislpyError ("fn " +:+ name +:+ " does not exsits in the context"))
  | Some fn =>
      let arity := arity fn in
      if negb (Nat.eqb arity (length actuals)) then
        Raise (DwislpyError ("fn  needs " +:+ to_string_nat arity +:+
                             " number of args but got " +:+ to_string_nat (length actuals)))
      else
        _ ← chck_args_with chck sep 0 (frmls (args fn)) actuals;
        Ok fn
  end.

Fixpoint Expn_chck (symt : SymT) (e : Expn) {struct e} : Res Ty :=
  match e with
  | Plus lf rg =>
      left_ty ← Expn_chck symt lf;
      rght_ty ← Expn_chck symt rg;
      if is_int left_ty && is_int rght_ty then Ok INT_T
      else if is_str left_ty && is_str rght_ty then Ok STR_T
      else Raise (DwislpyError "Wrong operand types for plus.")
  | Mnus lf rg =>
      left_ty ← Expn_chck symt lf;
      rght_ty ← Expn_chck symt rg;
      chck_int_int left_ty rght_ty INT_T "Wrong operand types for minus."
  | Tmes lf rg =>
      left_ty ← Expn_chck symt lf;
      rght_ty ← Expn_chck symt rg;
      if is_int left_ty && is_int rght_ty then Ok INT_T
      else if is_str left_ty && is_int rght_ty then Ok STR_T
      else Raise (DwislpyError "Wrong operand types for times.")
  | IDiv lf rg =>
      left_ty ← Expn_chck symt lf;
      rght_ty ← Expn_chck symt rg;
      chck_int_int left_ty rght_ty INT_T "Wrong operand types for div."
  | IMod lf rg =>
      left_ty ← Expn_chck symt lf;
      rght_ty ← Expn_chck symt rg;
      chck_int_int left_ty rght_ty INT_T "Wrong operand types for mod."
  | Imus expn =>
      expn_ty ← Expn_chck symt expn;
      if is_int expn_ty then Ok INT_T
      else Raise (DwislpyError "Wrong operand types for inplace minus.")
  | Inif if_br cond else_br =>
      cond_ty ← Expn_chck symt cond;
      if ty_ne cond_ty BOOL_T then Raise (DwislpyError "The condition should be bool")
      else
        if_br_ty ← Expn_chck symt if_br;
        else_br_ty ← Expn_chck symt else_br;
        if ty_ne if_br_ty else_br_ty then
          Raise (DwislpyError "The branches should have the same type")
        else Ok if_br_ty
  | Negt expn =>
      expr_ty ← Expn_chck symt expn;
      if is_bool expr_ty then Ok BOOL_T
      else Raise (DwislpyError "Wrong operand types for not.")
  | Conj lft rht =>
      left_ty ← Expn_chck symt lft;
      rght_ty ← Expn_chck symt rht;
      chck_bool_bool left_ty rght_ty "Wrong operand types for and."
  | Disj lft rht =>
      left_ty ← Expn_chck symt lft;
      rght_ty ← Expn_chck symt rht;
      chck_bool_bool left_ty rght_ty "Wrong operand types for or."
  | Cmlt lft rht =>
      left_ty ← Expn_chck symt lft;
      rght_ty ← Expn_chck symt rht;
      chck_int_int left_ty rght_ty BOOL_T "Wrong operand types for <."
  | Cmgt lft rht =>
      left_ty ← Expn_chck symt lft;
      rght_ty ← Expn_chck symt rht;
      chck_int_int left_ty rght_ty BOOL_T "Wrong operand types for >."
  | Cmeq lft rht =>
      left_ty ← Expn_chck symt lft;
      rght_ty ← Expn_chck symt rht;
      chck_int_int left_ty rght_ty BOOL_T "Wrong operand types for ==."
  | Cmle lft rht =>
      left_ty ← Expn_chck symt lft;
      rght_ty ← Expn_chck symt rht;
      chck_int_int left_ty rght_ty BOOL_T "Wrong operand types for <=."
  | Cmge lft rht =>
      left_ty ← Expn_chck symt lft;
      rght_ty ← Expn_chck symt rht;
      chck_int_int left_ty rght_ty BOOL_T "Wrong operand types for >=."
  | FCll name actuals =>
      fn ← chck_call_with (Expn_chck symt) "but got " name actuals;
      Ok (ret_type fn)
  | Ltrl valu =>
      match valu with
      | VInt _ => Ok INT_T
      | VStr _ => Ok STR_T
      | VBool _ => Ok BOOL_T
      | VNone => Ok NONE_T
      end
  | Lkup name =>
      if SymTable.has_info name symt then
        match SymTable.get_info name symt with
        | Some info => Ok (sym_type info)
        | None => Raise NullDeref
        end
      else Raise (DwislpyError ("Unknown identifier " +:+ name +:+ "."))
  | Inpt expn =>
      expr_ty ← Expn_chck symt expn;
      if negb (is_str expr_ty) then Raise (DwislpyError "Input requires a string.")
      else Ok STR_T
  | IntC expn =>
      expr_ty ← Expn_chck symt expn;
      if negb (is_str expr_ty) || negb (is_int expr_ty) then
        Raise (DwislpyError "Input requires a string or integer.")
      else Ok INT_T
  | StrC expn =>
      _ ← Expn_chck symt expn;
      Ok STR_T
  end.


(** ** The statement checker *)

Definition ChckStmt : Type := Rtns -> Stmt -> SymT -> Res (Rtns * SymT).
Definition ChckBlck : Type := Rtns -> Blck -> SymT -> Res (Rtns * SymT).

(** The [for] loop of [Blck::chck]: [rtns] is the accumulator, and the
    [break] of the source ends the loop with the statement's behaviour. *)
Definition Blck_loop_with (chck : ChckStmt) (expd : Rtns) :
    list Stmt -> Rtns -> SymT -> Res (Rtns * SymT) :=
  fix loop (stmts : list Stmt) (rtns : Rtns) (symt : SymT) {struct stmts} :=
    match stmts with
    | [] => Ok (rtns, symt)
    | stmt :: rest =>
        '(stmt_rtns, symt) ← chck expd stmt symt;
        if holds_Type stmt_rtns then
          if negb (holds_Void rtns) && ty_ne (type_of rtns) (type_of stmt_rtns) then
            Raise (DwislpyError ("Statement returns " +:+ get_type_str (type_of stmt_rtns) +:+
                                 " but previous statement returns " +:+
                                 get_type_str (type_of rtns) +:+ "."))
          else Ok (stmt_rtns, symt)
        else if holds_VoidOr stmt_rtns then
          if holds_Void rtns then loop rest stmt_rtns symt
          else if ty_ne (type_of rtns) (type_of stmt_rtns) then
            Raise (DwislpyError "Statement might return different types.")
          else loop rest rtns symt
        else loop rest rtns symt
    end.

Definition Blck_chck_with (chck : ChckStmt) : ChckBlck :=
  fun expd stmts symt =>
    let symt := SymTable.mark symt in
    '(rtns, symt) ← Blck_loop_with chck expd stmts RVoid symt;
    match SymTable.pop_until_mark symt with
    | Some symt => Ok (rtns, symt)
    | None => Raise NoMark
    end.

(** The first loop of [Cond::chck]: every condition must be a [bool]. *)
Fixpoint Cond_conds (symt : SymT) (i : nat) (ifcds : list (Expn * Blck)) : Res unit :=
  match ifcds with
  | [] => Ok tt
  | (cond, _) :: ifcds' =>
      cond_tp ← Expn_chck symt cond;
      if ty_ne cond_tp BOOL_T then
        Raise (DwislpyError ("The condition at " +:+ to_string_nat i +:+
                             " should have type Bool but got " +:+ get_type_str cond_tp))
      else Cond_conds symt (S i) ifcds'
  end.

(** How [Cond::chck] folds the behaviour [body_rt_tp] of one more arm into
    [return_pt]; the source has this text twice, in the loop over the
    [elif] arms ([at_] is the index followed by [" if"]) and for the
    alternative ([at_] is ["else"]). *)
Definition Cond_arm (at_ : string) (return_pt : Rtns) (return_tp : Ty)
    (rt_is_void rt_has_void : bool) (body_rt_tp : Rtns) : Res Rtns :=
  let body_has_void := has_void body_rt_tp in
  let body_is_void := holds_Void body_rt_tp in
  if body_is_void then
    if negb rt_is_void then Ok (RVoidOr (type_of return_pt)) else Ok return_pt
  else
    let body_tp := type_of body_rt_tp in
    if ty_ne return_tp body_tp then
      Raise (DwislpyError ("The return type at " +:+ at_ +:+ " should have type " +:+
                           get_type_str return_tp +:+ " but got " +:+ get_type_str body_tp))
    else if rt_has_void || body_has_void then Ok (RVoidOr return_tp)
    else Ok return_pt.

(** The loop [for (i = 1; i < ifcds.size(); i++)] of [Cond::chck]: [arms]
    are [ifcds[i..]], and the body checked in every round is [body0], the
    body of [ifcds[0]], as the source has it. *)
Definition Cond_elifs (chck_blck : ChckBlck) (expd : Rtns) (body0 : Blck)
    (return_tp : Ty) (rt_is_void rt_has_void : bool) :
    nat -> list (Expn * Blck) -> Rtns -> SymT -> Res (Rtns * SymT) :=
  fix loop (i : nat) (arms : list (Expn * Blck)) (return_pt : Rtns) (symt : SymT)
      {struct arms} :=
    match arms with
    | [] => Ok (return_pt, symt)
    | _ :: arms' =>
        '(body_rt_tp, symt) ← chck_blck expd body0 symt;
        return_pt ← Cond_arm (to_string_nat i +:+ " if") return_pt return_tp
                             rt_is_void rt_has_void body_rt_tp;
        loop (S i) arms' return_pt symt
    end.

Definition Cond_chck_with (chck_blck : ChckBlck) (expd : Rtns)
    (ifcds : list (Expn * Blck)) (els : option Blck) (symt : SymT) : Res (Rtns * SymT) :=
  match ifcds with
  | [] => Raise (DwislpyError "no if condition")
  | (_, body0) :: arms =>
      _ ← Cond_conds symt 0 ifcds;
      '(return_pt, symt) ← chck_blck expd body0 symt;
      let return_tp := type_of return_pt in
      let rt_is_void := holds_Void return_pt in
      let rt_has_void := has_void return_pt in
      '(return_pt, symt) ← Cond_elifs chck_blck expd body0 return_tp rt_is_void rt_has_void
                                      1 arms return_pt symt;
      match els with
      | None => Raise NullDeref
      | Some els_body =>
          '(body_rt_tp, symt) ← chck_blck expd els_body symt;
          return_pt ← Cond_arm "else" return_pt return_tp rt_is_void rt_has_void body_rt_tp;
          Ok (return_pt, symt)
      end
  end.

(** [Whil::chck] and [Rept::chck], which differ in the word of the message. *)
Definition Whil_chck_with (chck_blck : ChckBlck) (expd : Rtns)
    (cond : Expn) (body : Blck) (symt : SymT) : Res (Rtns * SymT) :=
  cond_tp ← Expn_chck symt cond;
  if ty_ne cond_tp BOOL_T then
    Raise (DwislpyError ("The condition for while should have type Bool but got " +:+
                         get_type_str cond_tp))
  else
    '(body_tp, symt) ← chck_blck expd body symt;
    if holds_Void body_tp then Ok (RVoid, symt)
    else Ok (RVoidOr (type_of body_tp), symt).

Definition Rept_chck_with (chck_blck : ChckBlck) (expd : Rtns)
    (cond : Expn) (body : Blck) (symt : SymT) : Res (Rtns * SymT) :=
  cond_tp ← Expn_chck symt cond;
  if ty_ne cond_tp BOOL_T then
    Raise (DwislpyError ("The condition for repeat should have type Bool but got " +:+
                         get_type_str cond_tp))
  else
    '(body_tp, symt) ← chck_blck expd body symt;
    if holds_Void body_tp then Ok (RVoid, symt)
    else Ok (RVoidOr (type_of body_tp), symt).

Fixpoint Prnt_loop (symt : SymT) (expns : list Expn) : Res unit :=
  match expns with
  | [] => Ok tt
  | expn :: expns' => _ ← Expn_chck symt expn; Prnt_loop symt expns'
  end.

Definition Asgn_chck (name : Name) (expn : Expn) (symt : SymT) : Res (Rtns * SymT) :=
  if negb (SymTable.has_info name symt) then
    Raise (DwislpyError ("Variable '" +:+ name +:+ "' never introduced."))
  else
    match SymTable.get_info name symt with
    | None => Raise NullDeref
    | Some info =>
        let name_ty := sym_type info in
        expn_ty ← Expn_chck symt expn;
        if ty_ne name_ty expn_ty then
          Raise (DwislpyError ("Type mismatch. Expected expression of type " +:+
                               type_name name_ty +:+ "."))
        else Ok (RVoid, symt)
    end.

(** [Ntro::chck]; the annotation [type] of the node is not read. *)
Definition Ntro_chck (name : Name) (type : Ty) (expn : Expn) (symt : SymT) :
    Res (Rtns * SymT) :=
  if SymTable.is_redefining name symt then
    Raise (DwislpyError ("Variable '" +:+ name +:+ "' already introduced."))
  else
    expn_type ← Expn_chck symt expn;
    let symt := SymTable.add_locl name expn_type symt in
    Ok (RVoid, symt).

Definition FRtn_chck (expd : Rtns) (expn : option Expn) (symt : SymT) : Res (Rtns * SymT) :=
  let expd_ty := type_of expd in
  match expn with
  | None =>
      Raise (DwislpyError ("The return value does not exist but should return " +:+
                           get_type_str expd_ty))
  | Some expn =>
      actual_tp ← Expn_chck symt expn;
      if ty_eq expd_ty actual_tp then Ok (RType expd_ty, symt)
      else Raise (DwislpyError ("The return type should be " +:+ get_type_str expd_ty +:+
                                " but got " +:+ get_type_str actual_tp))
  end.

Definition PRtn_chck (expd : Rtns) (symt : SymT) : Res (Rtns * SymT) :=
  if holds_Void expd then Raise (DwislpyError "Unexpected return statement.")
  else
    let expd_ty := type_of expd in
    if negb (is_None expd_ty) then
      Raise (DwislpyError "A procedure does not return a value.")
    else Ok (RType NONE_T, symt).

Definition PCll_chck (name : Name) (actuals : list Expn) (symt : SymT) : Res (Rtns * SymT) :=
  _ ← chck_call_with (Expn_chck symt) " but got " name actuals;
  Ok (RVoid, symt).

Definition Pleq_chck (name : Name) (expn : Expn) (symt : SymT) : Res (Rtns * SymT) :=
  if negb (SymTable.has_info name symt) then
    Raise (DwislpyError ("The variable " +:+ name +:+ " is not defined."))
  else
    match SymTable.get_info name symt with
    | None => Raise NullDeref
    | Some stored =>
        let left_ty := sym_type stored in
        rght_ty ← Expn_chck symt expn;
        if is_int left_ty && is_int rght_ty then Ok (RVoid, symt)
        else if is_str left_ty && is_str rght_ty then Ok (RVoid, symt)
        else Raise (DwislpyError "Wrong operand types for plus eq.")
    end.

Definition Mneq_chck (name : Name) (expn : Expn) (symt : SymT) : Res (Rtns * SymT) :=
  if negb (SymTable.has_info name symt) then
    Raise (DwislpyError ("The variable " +:+ name +:+ " is not defined."))
  else
    match SymTable.get_info name symt with
    | None => Raise NullDeref
    | Some stored =>
        let left_ty := sym_type stored in
        rght_ty ← Expn_chck symt expn;
        if is_int left_ty && is_int rght_ty then Ok (RVoid, symt)
        else Raise (DwislpyError "Wrong operand types for minus eq.")
    end.

Fixpoint Stmt_chck (expd : Rtns) (s : Stmt) (symt : SymT) {struct s} : Res (Rtns * SymT) :=
  match s with
  | Asgn name expn => Asgn_chck name expn symt
  | Pass => Ok (RVoid, symt)
  | Prnt expns => _ ← Prnt_loop symt expns; Ok (RVoid, symt)
  | Ntro name type expn => Ntro_chck name type expn symt
  | FRtn expn => FRtn_chck expd expn symt
  | PRtn => PRtn_chck expd symt
  | PCll name actuals => PCll_chck name actuals symt
  | Ifcd _ _ => Raise (DwislpyError "should not be called directly")
  | Else _ => Raise (DwislpyError "should not be called directly")
  | Elif _ _ => Raise (DwislpyError "should not be called directly")
  | Cond ifcds els => Cond_chck_with (Blck_chck_with Stmt_chck) expd ifcds els symt
  | Whil cond body => Whil_chck_with (Blck_chck_with Stmt_chck) expd cond body symt
  | Rept cond body => Rept_chck_with (Blck_chck_with Stmt_chck) expd cond body symt
  | Pleq name expn => Pleq_chck name expn symt
  | Mneq name expn => Mneq_chck name expn symt
  | ExpnS _ _ => Raise (DwislpyError "EXPN should not use Stmt check")
  end.

Definition Blck_loop : Rtns -> list Stmt -> Rtns -> SymT -> Res (Rtns * SymT) :=
  Blck_loop_with Stmt_chck.
Definition Blck_chck : ChckBlck := Blck_chck_with Stmt_chck.
Definition Cond_chck := Cond_chck_with Blck_chck.
Definition Whil_chck := Whil_chck_with Blck_chck.
Definition Rept_chck := Rept_chck_with Blck_chck.

(** ** Definitions *)

Definition Defn_chck (d : Defn) : Res unit :=
  '(rtns, _) ← Blck_chck (RType (ret_type d)) (body d) (args d);
  if holds_Void rtns then Raise (DwislpyError "Definition body never returns.")
  else if holds_VoidOr rtns then Raise (DwislpyError "Definition body might not return.")
  else if ty_ne (type_of rtns) (ret_type d) then
    Raise (DwislpyError ("Definition body returns " +:+ get_type_str (type_of rtns) +:+
                         " but should return " +:+ get_type_str (ret_type d)))
  else Ok tt.

End Checker.

(** ** Programs *)

Fixpoint Prgm_chck_defs (defs : Defs) (dfprs : list (Name * Defn)) : Res unit :=
  match dfprs with
  | [] => Ok tt
  | dfpr :: dfprs' => _ ← Defn_chck defs (snd dfpr); Prgm_chck_defs defs dfprs'
  end.

(** [Prgm::chck].  The definitions are visited in the order of the map's
    iteration.  For a main block whose behaviour is not [Void] the source
    builds a [DwislpyError] object and drops it: there is no [throw], so the
    test has no effect on the outcome. *)
Definition Prgm_chck (p : Prgm) : Res unit :=
  _ ← Prgm_chck_defs (defs p) (map_to_list (defs p));
  match main p with
  | Some main =>
      '(rtns, _) ← Blck_chck (defs p) RVoid main (main_symt p);
      if negb (holds_Void rtns) then
        let _ := DwislpyError "Main script should not return." in Ok tt
      else Ok tt
  | None => Ok tt
  end.

(** * The interpreter ([dwislpy-ast.cc])

    The run-time context [Ctxt] is a flat map from names to values.  The
    console is the pair of the tokens still to be read from [std::cin] and
    of the text written to [std::cout].  An [int] is a 32-bit two's
    complement integer: the results of the arithmetic are wrapped. *)

Definition Ctxt : Type := gmap Name Valu.

Record IO : Type := mkIO { cin : list string; cout : string }.

Definition put (s : string) (io : IO) : IO := mkIO (cin io) (cout io +:+ s).

(** [std::cin >> vl]: the next token, or the empty string at the end of the
    input. *)
Definition get_token (io : IO) : string * IO :=
  match cin io with
  | [] => (EmptyString, io)
  | tok :: rest => (tok, mkIO rest (cout io))
  end.

Definition endl : string := String (Ascii.ascii_of_nat 10) EmptyString.
Definition dquote : string := String (Ascii.ascii_of_nat 34) EmptyString.

Definition int_wrap (z : Z) : Z := ((z + 2 ^ 31) mod 2 ^ 32 - 2 ^ 31)%Z.

(** [std::to_string] on an [int]. *)
Definition to_string_int (n : Z) : string := NilZero.string_of_int (Z.to_int n).

Definition to_string (v : Valu) : string :=
  match v with
  | VInt n => to_string_int n
  | VStr s => s
  | VBool b => if (b : bool) then "True" else "False"
  | VNone => "None"
  end.

(** [std::get<T>]: the inspection of a value's tag. *)
Definition get_int (v : Valu) : Res Z :=
  match v with VInt n => Ok n | _ => Raise bad_variant_access end.
Definition get_bool (v : Valu) : Res bool :=
  match v with VBool b => Ok b | _ => Raise bad_variant_access end.
Definition get_string (v : Valu) : Res string :=
  match v with VStr s => Ok s | _ => Raise bad_variant_access end.

(** [std::stoi]: white space, an optional sign, decimal digits; [None] is
    [std::invalid_argument] (no digit), a value that does not fit an [int]
    is [std::out_of_range], which [IntC::eval] does not catch. *)
Definition is_space (c : Ascii.ascii) : bool :=
  let n := Ascii.nat_of_ascii c in
  Nat.eqb n 32 || (Nat.leb 9 n && Nat.leb n 13).

Definition digit_of (c : Ascii.ascii) : option Z :=
  let n := Ascii.nat_of_ascii c in
  if Nat.leb 48 n && Nat.leb n 57 then Some (Z.of_nat (n - 48)) else None.

Fixpoint skip_space (s : string) : string :=
  match s with
  | String c s' => if is_space c then skip_space s' else s
  | EmptyString => s
  end.

Fixpoint read_digits (s : string) (acc : option Z) : option Z :=
  match s with
  | String c s' =>
      match digit_of c with
      | Some d => read_digits s' (Some (10 * default 0%Z acc + d)%Z)
      | None => acc
      end
  | EmptyString => acc
  end.

Definition stoi (s : string) : Res (option Z) :=
  let s := skip_space s in
  let '(neg, s) :=
    match s with
    | String c s' =>
        if Ascii.eqb c (Ascii.ascii_of_nat 45) then (true, s')
        else if Ascii.eqb c (Ascii.ascii_of_nat 43) then (false, s')
        else (false, s)
    | EmptyString => (false, s)
    end in
  match read_digits s None with
  | None => Ok None
  | Some n =>
      let n := if neg then (- n)%Z else n in
      if ((- 2 ^ 31 <=? n) && (n <? 2 ^ 31))%Z then Ok (Some n) else Raise out_of_range
  end.

(** The loop of [Tmes::eval] on a string: its counter is an [unsigned int],
    so a negative [rn] counts as [rn + 2^32]. *)
Definition repeat_string (ln : string) (rn : Z) : string :=
  Z.iter (rn mod 2 ^ 32) (fun ss => ss +:+ ln) EmptyString.

Definition Z_of_bool (b : bool) : Z := if (b : bool) then 1%Z else 0%Z.

Section Interpreter.

Variable defs : Defs.

(** [body->exec(defs,new_ctxt).value_or(None)] of a called definition. *)
Variable run_body : Defn -> Ctxt -> IO -> Res (Valu * IO).

(** The loop of [Defn::exec] that binds the formals: the actuals are
    evaluated in the caller's context [ctxt]. *)
Definition Defn_bind_with (eval : Ctxt -> Expn -> IO -> Res (Valu * IO)) (ctxt : Ctxt) :
    list SymInfo -> list Expn -> Ctxt -> IO -> Res (Ctxt * IO) :=
  fix loop (fmls : list SymInfo) (vec : list Expn) (new_ctxt : Ctxt) (io : IO)
      {struct vec} : Res (Ctxt * IO) :=
    match vec, fmls with
    | v :: vec', fm :: fmls' =>
        '(val, io) ← eval ctxt v io;
        loop fmls' vec' (<[sym_name fm := val]> new_ctxt) io
    | _, _ => Ok (new_ctxt, io)
    end.

(** [Defn::exec]. *)
Definition Defn_exec_with (eval : Ctxt -> Expn -> IO -> Res (Valu * IO))
    (d : Defn) (ctxt : Ctxt) (vec : list Expn) (io : IO) : Res (Valu * IO) :=
  let new_ctxt := ctxt in
  if negb (Nat.eqb (SymTable.get_frmls_size (args d)) (length vec)) then
    Raise (logic_error "Wrong number of arguments")
  else
    '(new_ctxt, io) ← Defn_bind_with eval ctxt (frmls (args d)) vec new_ctxt io;
    run_body d new_ctxt io.

Fixpoint Expn_eval (ctxt : Ctxt) (e : Expn) (io : IO) {struct e} : Res (Valu * IO) :=
  match e with
  | FCll name actuals =>
      match defs !! name with
      | None => Raise (logic_error "Function not found")
      | Some fn => Defn_exec_with Expn_eval fn ctxt actuals io
      end
  | Inif if_br cond else_br =>
      '(c, io) ← Expn_eval ctxt cond io;
      b ← get_bool c;
      if (b : bool) then Expn_eval ctxt if_br io else Expn_eval ctxt else_br io
  | Negt expn =>
      '(v, io) ← Expn_eval ctxt expn io;
      b ← get_bool v;
      Ok (VBool (negb b), io)
  | Imus expn =>
      '(v, io) ← Expn_eval ctxt expn io;
      n ← get_int v;
      Ok (VInt (int_wrap (- n)), io)
  | Conj lft rht =>
      '(lv, io) ← Expn_eval ctxt lft io;
      lb ← get_bool lv;
      if (lb : bool) then
        '(rv, io) ← Expn_eval ctxt rht io;
        rb ← get_bool rv;
        Ok (VBool rb, io)
      else Ok (VBool false, io)
  | Disj lft rht =>
      '(lv, io) ← Expn_eval ctxt lft io;
      lb ← get_bool lv;
      if (lb : bool) then Ok (VBool true, io)
      else
        '(rv, io) ← Expn_eval ctxt rht io;
        rb ← get_bool rv;
        Ok (VBool rb, io)
  | Cmlt lft rht =>
      '(lv, io) ← Expn_eval ctxt lft io;
      ln ← get_int lv;
      '(rv, io) ← Expn_eval ctxt rht io;
      rn ← get_int rv;
      Ok (VBool (ln <? rn)%Z, io)
  | Cmgt lft rht =>
      '(lv, io) ← Expn_eval ctxt lft io;
      ln ← get_int lv;
      '(rv, io) ← Expn_eval ctxt rht io;
      rn ← get_int rv;
      Ok (VBool (ln >? rn)%Z, io)
  | Cmeq lft rht =>
      '(lv, io) ← Expn_eval ctxt lft io;
      ln ← get_int lv;
      '(rv, io) ← Expn_eval ctxt rht io;
      rn ← get_int rv;
      Ok (VBool (ln =? rn)%Z, io)
  | Cmle lft rht =>
      '(lv, io) ← Expn_eval ctxt lft io;
      ln ← get_int lv;
      '(rv, io) ← Expn_eval ctxt rht io;
      rn ← get_int rv;
      Ok (VBool (ln <=? rn)%Z, io)
  | Cmge lft rht =>
      '(lv, io) ← Expn_eval ctxt lft io;
      ln ← get_int lv;
      '(rv, io) ← Expn_eval ctxt rht io;
      rn ← get_int rv;
      Ok (VBool (ln >=? rn)%Z, io)
  | Plus lf rg =>
      '(lv, io) ← Expn_eval ctxt lf io;
      '(rv, io) ← Expn_eval ctxt rg io;
      match lv, rv with
      | VInt ln, VInt rn => Ok (VInt (int_wrap (ln + rn)), io)
      | VStr ls, VStr rs => Ok (VStr (ls +:+ rs), io)
      | _, _ => Raise (DwislpyError "Run-time error: wrong operand type for plus.")
      end
  | Mnus lf rg =>
      '(lv, io) ← Expn_eval ctxt lf io;
      '(rv, io) ← Expn_eval ctxt rg io;
      match lv, rv with
      | VInt ln, VInt rn => Ok (VInt (int_wrap (ln - rn)), io)
      | _, _ => Raise (DwislpyError "Run-time error: wrong operand type for minus.")
      end
  | Tmes lf rg =>
      '(lv, io) ← Expn_eval ctxt lf io;
      '(rv, io) ← Expn_eval ctxt rg io;
      match lv, rv with
      | VInt ln, VInt rn => Ok (VInt (int_wrap (ln * rn)), io)
      | VStr ln, VInt rn => Ok (VStr (repeat_string ln rn), io)
      | _, _ => Raise (DwislpyError "Run-time error: wrong operand type for times.")
      end
  | IDiv lf rg =>
      '(lv, io) ← Expn_eval ctxt lf io;
      '(rv, io) ← Expn_eval ctxt rg io;
      match lv, rv with
      | VInt ln, VInt rn =>
          if (rn =? 0)%Z then Raise (DwislpyError "Run-time error: division by 0.")
          else Ok (VInt (int_wrap (Z.quot ln rn)), io)
      | _, _ => Raise (DwislpyError "Run-time error: wrong operand type for quotient.")
      end
  | IMod lf rg =>
      '(lv, io) ← Expn_eval ctxt lf io;
      '(rv, io) ← Expn_eval ctxt rg io;
      match lv, rv with
      | VInt ln, VInt rn =>
          if (rn =? 0)%Z then Raise (DwislpyError "Run-time error: division by 0.")
          else Ok (VInt (int_wrap (Z.rem ln rn)), io)
      | _, _ => Raise (DwislpyError "Run-time error: wrong operand type for remainder.")
      end
  | Ltrl valu => Ok (valu, io)
  | Lkup name =>
      match ctxt !! name with
      | Some v => Ok (v, io)
      | None =>
          Raise (DwislpyError ("Run-time error: variable '" +:+ name +:+ "'" +:+
                               "not defined."))
      end
  | Inpt expn =>
      '(v, io) ← Expn_eval ctxt expn io;
      match v with
      | VStr prompt =>
          let io := put prompt io in
          let '(vl, io) := get_token io in
          Ok (VStr vl, io)
      | _ => Raise (DwislpyError "Run-time error: prompt is not a string.")
      end
  | IntC expn =>
      '(v, io) ← Expn_eval ctxt expn io;
      match v with
      | VInt _ => Ok (v, io)
      | VStr s =>
          i ← stoi s;
          match i with
          | Some i => Ok (VInt i, io)
          | None =>
              Raise (DwislpyError ("Run-time error: " +:+ dquote +:+ s +:+ dquote +:+
                                   "cannot be converted to an int."))
          end
      | VBool b => Ok (VInt (if (b : bool) then 1 else 0)%Z, io)
      | VNone => Raise (DwislpyError "Run-time error: cannot convert to an int.")
      end
  | StrC expn =>
      '(v, io) ← Expn_eval ctxt expn io;
      Ok (VStr (to_string v), io)
  end.

Definition Defn_exec : Defn -> Ctxt -> list Expn -> IO -> Res (Valu * IO) :=
  Defn_exec_with Expn_eval.

(** ** Statements: [exec] returns the value of a [return], if one ran *)

Definition Exec : Type := Ctxt -> IO -> Res (option Valu * Ctxt * IO).

Definition Blck_exec_with (exec : Stmt -> Exec) : list Stmt -> Exec :=
  fix loop (stmts : list Stmt) (ctxt : Ctxt) (io : IO) {struct stmts} :=
    match stmts with
    | [] => Ok (None, ctxt, io)
    | s :: rest =>
        '(rv, ctxt, io) ← exec s ctxt io;
        match rv with
        | Some _ => Ok (rv, ctxt, io)
        | None => loop rest ctxt io
        end
    end.

(** The [for] loop of [Cond::exec] over the arms. *)
Definition Cond_arms_with (exec_blck : list Stmt -> Exec) (els : option Blck) :
    list (Expn * Blck) -> Exec :=
  fix loop (ifcds : list (Expn * Blck)) (ctxt : Ctxt) (io : IO) {struct ifcds} :=
    match ifcds with
    | ifcd :: ifcds' =>
        '(c, io) ← Expn_eval ctxt (fst ifcd) io;
        b ← get_bool c;
        if (b : bool) then exec_blck (snd ifcd) ctxt io else loop ifcds' ctxt io
    | [] =>
        match els with
        | Some els_body => exec_blck els_body ctxt io
        | None => Ok (None, ctxt, io)
        end
    end.

(** [while (cond) body->exec(...)]: the value the body returns is dropped.
    [fuel] bounds the number of rounds. *)
Definition Whil_loop (cond : Expn) (exec_body : Exec) : nat -> Exec :=
  fix loop (fuel : nat) (ctxt : Ctxt) (io : IO) {struct fuel} :=
    match fuel with
    | O => Raise OutOfFuel
    | S fuel' =>
        '(c, io) ← Expn_eval ctxt cond io;
        b ← get_bool c;
        if (b : bool) then
          '(_, ctxt, io) ← exec_body ctxt io;
          loop fuel' ctxt io
        else Ok (None, ctxt, io)
    end.

(** [do body->exec(...) while (!cond)]. *)
Definition Rept_loop (cond : Expn) (exec_body : Exec) : nat -> Exec :=
  fix loop (fuel : nat) (ctxt : Ctxt) (io : IO) {struct fuel} :=
    match fuel with
    | O => Raise OutOfFuel
    | S fuel' =>
        '(_, ctxt, io) ← exec_body ctxt io;
        '(c, io) ← Expn_eval ctxt cond io;
        b ← get_bool c;
        if negb (b : bool) then loop fuel' ctxt io else Ok (None, ctxt, io)
    end.

(** The loop of [Prnt::exec] over [expns[1..]]. *)
Fixpoint Prnt_rest (ctxt : Ctxt) (expns : list Expn) (io : IO) : Res IO :=
  match expns with
  | [] => Ok io
  | expn :: expns' =>
      let io := put " " io in
      '(v, io) ← Expn_eval ctxt expn io;
      Prnt_rest ctxt expns' (put (to_string v) io)
  end.

Definition Prnt_exec (expns : list Expn) : Exec := fun ctxt io =>
  io ← match expns with
       | [] => Ok io
       | expn :: _ => '(v, io) ← Expn_eval ctxt expn io; Ok (put (to_string v) io)
       end;
  io ← Prnt_rest ctxt (tail expns) io;
  Ok (None, ctxt, put endl io).

(** [Valu& val = ctxt[name]] inserts the default value, the [int] 0, for
    a name the context does not have. *)
Definition ctxt_at (name : Name) (ctxt : Ctxt) : Valu * Ctxt :=
  match ctxt !! name with
  | Some val => (val, ctxt)
  | None => (VInt 0, <[name := VInt 0%Z]> ctxt)
  end.

Definition Pleq_exec (name : Name) (expn : Expn) : Exec := fun ctxt io =>
  let '(val, ctxt) := ctxt_at name ctxt in
  match val with
  | VInt n =>
      '(v, io) ← Expn_eval ctxt expn io;
      m ← get_int v;
      Ok (None, <[name := VInt (int_wrap (n + m))]> ctxt, io)
  | VStr s =>
      '(v, io) ← Expn_eval ctxt expn io;
      t ← get_string v;
      Ok (None, <[name := VStr (s +:+ t)]> ctxt, io)
  | VBool b =>
      '(v, io) ← Expn_eval ctxt expn io;
      c ← get_bool v;
      Ok (None, <[name := VInt (Z_of_bool b + Z_of_bool c)]> ctxt, io)
  | VNone => Ok (None, ctxt, io)
  end.

Definition Mneq_exec (name : Name) (expn : Expn) : Exec := fun ctxt io =>
  let '(val, ctxt) := ctxt_at name ctxt in
  match val with
  | VInt n =>
      '(v, io) ← Expn_eval ctxt expn io;
      m ← get_int v;
      Ok (None, <[name := VInt (int_wrap (n - m))]> ctxt, io)
  | VStr s => Raise (logic_error "Cannot subtract strings")
  | VBool b =>
      '(v, io) ← Expn_eval ctxt expn io;
      c ← get_bool v;
      Ok (None, <[name := VInt (Z_of_bool b - Z_of_bool c)]> ctxt, io)
  | VNone => Ok (None, ctxt, io)
  end.

Variable fuel : nat.

Fixpoint Stmt_exec (s : Stmt) (ctxt : Ctxt) (io : IO) {struct s} :
    Res (option Valu * Ctxt * IO) :=
  match s with
  | Asgn name expn =>
      '(v, io) ← Expn_eval ctxt expn io;
      Ok (None, <[name := v]> ctxt, io)
  | Ntro name _ expn =>
      '(v, io) ← Expn_eval ctxt expn io;
      Ok (None, <[name := v]> ctxt, io)
  | Pass => Ok (None, ctxt, io)
  | Prnt expns => Prnt_exec expns ctxt io
  | Pleq name expn => Pleq_exec name expn ctxt io
  | Mneq name expn => Mneq_exec name expn ctxt io
  | Ifcd _ _ => Ok (None, ctxt, io)
  | Cond ifcds els => Cond_arms_with (Blck_exec_with Stmt_exec) els ifcds ctxt io
  | Else body => Blck_exec_with Stmt_exec body ctxt io
  | Elif cond body =>
      '(c, io) ← Expn_eval ctxt cond io;
      b ← get_bool c;
      if (b : bool) then
        '(v, io) ← Expn_eval ctxt cond io;
        Ok (Some v, ctxt, io)
      else Blck_exec_with Stmt_exec body ctxt io
  | Whil cond body => Whil_loop cond (Blck_exec_with Stmt_exec body) fuel ctxt io
  | Rept cond body => Rept_loop cond (Blck_exec_with Stmt_exec body) fuel ctxt io
  | FRtn expn =>
      match expn with
      | None => Raise NullDeref
      | Some expn =>
          '(v, io) ← Expn_eval ctxt expn io;
          Ok (Some v, ctxt, io)
      end
  | PRtn => Ok (None, ctxt, io)
  | PCll name actuals =>
      match defs !! name with
      | None => Raise (logic_error "Function not found")
      | Some fn =>
          '(_, io) ← Defn_exec fn ctxt actuals io;
          Ok (None, ctxt, io)
      end
  | ExpnS is_statement e =>
      '(val, io) ← Expn_eval ctxt e io;
      if is_statement then Ok (None, ctxt, io)
      else
        '(v, io) ← Expn_eval ctxt e io;
        Ok (Some v, ctxt, io)
  end.

Definition Blck_exec : list Stmt -> Exec := Blck_exec_with Stmt_exec.

End Interpreter.

(** A call runs the body of the definition; [fuel] bounds the depth of the
    calls and, in each loop, the number of rounds. *)
Fixpoint run_body (defs : Defs) (fuel : nat) (d : Defn) (new_ctxt : Ctxt) (io : IO) :
    Res (Valu * IO) :=
  match fuel with
  | O => Raise OutOfFuel
  | S fuel' =>
      '(rv, _, io) ← Blck_exec defs (run_body defs fuel') fuel (body d) new_ctxt io;
      Ok (default VNone rv, io)
  end.

(** [Prgm::run]. *)
Definition Prgm_run (fuel : nat) (p : Prgm) (io : IO) : Res IO :=
  let main_ctxt : Ctxt := ∅ in
  match main p with
  | Some main =>
      '(_, _, io) ← Blck_exec (defs p) (run_body (defs p) fuel) fuel main main_ctxt io;
      Ok io
  | None => Ok io
  end.

(** ** Induction over statements, through the blocks nested in them *)

Section Stmt_induction.

Variable P : Stmt -> Prop.

Definition Forall_els (els : option Blck) : Prop :=
  match els with
  | Some b => Forall P b
  | None => True
  end.

Hypothesis HAsgn : forall name expn, P (Asgn name expn).
Hypothesis HNtro : forall name type expn, P (Ntro name type expn).
Hypothesis HPleq : forall name expn, P (Pleq name expn).
Hypothesis HMneq : forall name expn, P (Mneq name expn).
Hypothesis HCond : forall ifcds els,
  Forall (fun ifcd => Forall P (snd ifcd)) ifcds -> Forall_els els -> P (Cond ifcds els).
Hypothesis HIfcd : forall cond body, Forall P body -> P (Ifcd cond body).
Hypothesis HElse : forall body, Forall P body -> P (Else body).
Hypothesis HElif : forall cond body, Forall P body -> P (Elif cond body).
Hypothesis HWhil : forall cond body, Forall P body -> P (Whil cond body).
Hypothesis HRept : forall cond body, Forall P body -> P (Rept cond body).
Hypothesis HFRtn : forall expn, P (FRtn expn).
Hypothesis HPRtn : P PRtn.
Hypothesis HPrnt : forall expns, P (Prnt expns).
Hypothesis HPass : P Pass.
Hypothesis HPCll : forall name actuals, P (PCll name actuals).
Hypothesis HExpnS : forall is_statement e, P (ExpnS is_statement e).

Fixpoint Stmt_nested_ind (s : Stmt) : P s :=
  let blck :=
    fix blck (b : list Stmt) : Forall P b :=
      match b with
      | [] => @List.Forall_nil _ P
      | s' :: b' => @List.Forall_cons _ P s' b' (Stmt_nested_ind s') (blck b')
      end in
  match s with
  | Asgn name expn => HAsgn name expn
  | Ntro name type expn => HNtro name type expn
  | Pleq name expn => HPleq name expn
  | Mneq name expn => HMneq name expn
  | Cond ifcds els =>
      HCond ifcds els
        ((fix arms (l : list (Expn * list Stmt)) : Forall (fun ifcd => Forall P (snd ifcd)) l :=
            match l with
            | [] => @List.Forall_nil _ _
            | ifcd :: l' => @List.Forall_cons _ _ ifcd l' (blck (snd ifcd)) (arms l')
            end) ifcds)
        (match els as o return Forall_els o with
         | Some b => blck b
         | None => I
         end)
  | Ifcd cond body => HIfcd cond body (blck body)
  | Else body => HElse body (blck body)
  | Elif cond body => HElif cond body (blck body)
  | Whil cond body => HWhil cond body (blck body)
  | Rept cond body => HRept cond body (blck body)
  | FRtn expn => HFRtn expn
  | PRtn => HPRtn
  | Prnt expns => HPrnt expns
  | Pass => HPass
  | PCll name actuals => HPCll name actuals
  | ExpnS is_statement e => HExpnS is_statement e
  end.

End Stmt_induction.

(** * Vocabulary of the properties *)

(** A behaviour that is [Void] or carries the type of the expected return. *)
Definition rtns_agrees (expd r : Rtns) : Prop := r = RVoid \/ type_of r = type_of expd.

(** Two tables that differ in their current frame at most. *)
Definition same_scopes (symt symt' : SymT) : Prop :=
  exists f, symt' = SymTable.set_current f symt.

Definition chck_sound (defs : Defs) (s : Stmt) : Prop :=
  forall expd symt r symt',
    Stmt_chck defs expd s symt = Ok (r, symt') ->
    rtns_agrees expd r /\ same_scopes symt symt'.

Definition blck_sound (defs : Defs) (b : Blck) : Prop :=
  forall expd symt r symt',
    Blck_chck defs expd b symt = Ok (r, symt') ->
    rtns_agrees expd r /\ symt' = symt.

(** What the loop of [Cond::chck] keeps true of [return_pt], where [r0] is
    the behaviour of the first arm. *)
Definition cond_inv (expd r0 return_pt : Rtns) : Prop :=
  rtns_agrees expd return_pt /\ (holds_Void return_pt = true -> holds_Void r0 = true).

(** The loop merge in the words of the specification. *)
Definition spec_loop_merge (body : Rtns) : Rtns :=
  match body with
  | RVoid => RVoid
  | RVoidOr T => RVoidOr T
  | RType T => RVoidOr T
  end.


(** The error [Ntro::chck] raises for a name of the current frame. *)
Definition redefinition_error (name : Name) : Exn :=
  DwislpyError ("Variable '" +:+ name +:+ "' already introduced.").

(** The first character of the message of a semantic error. *)
Definition msg_head (e : Exn) : option Ascii.ascii :=
  match e with
  | DwislpyError (String c _) => Some c
  | _ => None
  end.

(** The tables in which a binding of [name] made in [symt] is still the one
    a lookup finds: scopes opened later, and declarations of other names. *)
Inductive later_scope (name : Name) (symt : SymT) : SymT -> Prop :=
| later_here : later_scope name symt symt
| later_mark symt' : later_scope name symt symt' -> later_scope name symt (SymTable.mark symt')
| later_add_locl symt' name' type' :
    name' <> name -> later_scope name symt symt' ->
    later_scope name symt (SymTable.add_locl name' type' symt').

(** A semantic error whose message does not start with the letter V. *)
Definition not_V (e : Exn) : Prop := msg_head e <> Some (Ascii.ascii_of_nat 86).

(** ** Programs the theorems are evaluated on *)

Definition no_defs : Defs := ∅.

(** ["a" - "b"] *)
Definition str_minus_str : Expn := Mnus (Ltrl (VStr "a")) (Ltrl (VStr "b")).

(** [if False: pass / elif True: print("a" - "b") / else: pass] *)
Definition elif_minus : Stmt :=
  Cond [(Ltrl (VBool false), [Pass]); (Ltrl (VBool true), [Prnt [str_minus_str]])]
       (Some [Pass]).

(** [if False: pass / elif True: print(y) / else: pass], with [y] never
    declared. *)
Definition elif_undeclared : Stmt :=
  Cond [(Ltrl (VBool false), [Pass]); (Ltrl (VBool true), [Prnt [Lkup "y"]])]
       (Some [Pass]).

Definition script (stmts : Blck) : Prgm := mkPrgm no_defs (Some stmts) SymTable.empty.

(** [if True: pass] *)
Definition if_pass : Stmt := Cond [(Ltrl (VBool true), [Pass])] None.

(** [def g(x: int) -> int: if x > 0: return x] *)
Definition g_frmls : SymT := SymTable.of_frmls [mkSymInfo "x" IntTy].
Definition g_test : Expn := Cmgt (Lkup "x") (Ltrl (VInt 0)).
Definition g_defn : Defn :=
  mkDefn "g" g_frmls [Cond [(g_test, [FRtn (Some (Lkup "x"))])] None] IntTy.

(** The same with the alternative written out: [else: pass]. *)
Definition g_else_pass : Defn :=
  mkDefn "g" g_frmls [Cond [(g_test, [FRtn (Some (Lkup "x"))])] (Some [Pass])] IntTy.

(** [def f(x: int) -> int: if x > 0: return x else: return -x] *)
Definition f_defn : Defn :=
  mkDefn "f" g_frmls
    [Cond [(g_test, [FRtn (Some (Lkup "x"))])] (Some [FRtn (Some (Imus (Lkup "x")))])] IntTy.

(** [x: int = 1] followed by [if True: x: int = 2], with and without an
    alternative. *)
Definition shadow_in_if (els : option Blck) : Blck :=
  [Ntro "x" IntTy (Ltrl (VInt 1));
   Cond [(Ltrl (VBool true), [Ntro "x" IntTy (Ltrl (VInt 2))])] els].

(** [x: int = "a"] followed by an assignment to [x]. *)
Definition annotated_int_holds_str (e : Expn) : Blck :=
  [Ntro "x" IntTy (Ltrl (VStr "a")); Asgn "x" e].

(** [def h(x: int) -> int: if x > 0: pass else: return -x] *)
Definition h_defn : Defn :=
  mkDefn "h" g_frmls
    [Cond [(g_test, [Pass])] (Some [FRtn (Some (Imus (Lkup "x")))])] IntTy.

(** ** Vocabulary of the further properties *)

(** The errors of the checker proper. *)
Definition is_semantic (e : Exn) : Prop :=
  match e with DwislpyError _ => True | _ => False end.

(** Every conditional of the statement has its alternative. *)
Fixpoint all_els (s : Stmt) : bool :=
  match s with
  | Cond ifcds els =>
      forallb (fun ifcd => forallb all_els (snd ifcd)) ifcds
      && match els with Some b => forallb all_els b | None => false end
  | Ifcd _ body | Else body | Elif _ body | Whil _ body | Rept _ body => forallb all_els body
  | _ => true
  end.

(** The statements that are declarations. *)
Definition is_Ntro (s : Stmt) : bool :=
  match s with Ntro _ _ _ => true | _ => false end.

(** The static type of a run-time value: its tag. *)
Definition tag_of (v : Valu) : Ty :=
  match v with
  | VInt _ => IntTy
  | VBool _ => BoolTy
  | VStr _ => StrTy
  | VNone => NoneTy
  end.


(** The run-time failures that are left to run time: a division by zero,
    and, in the model, the end of the fuel. *)
Definition is_dynamic (e : Exn) : Prop :=
  e = DwislpyError "Run-time error: division by 0." \/ e = OutOfFuel.

(** An outcome that is a value of type [t] or a failure left to run time. *)
Definition yields (t : Ty) (res : Res (Valu * IO)) : Prop :=
  match res with
  | Ok (v, _) => tag_of v = t
  | Raise e => is_dynamic e
  end.


(** The value [read_digits] computes on the string of a decimal numeral,
    from the accumulator [a]. *)
Fixpoint digits_val (d : Decimal.uint) (a : Z) : Z :=
  match d with
  | Decimal.Nil => a
  | Decimal.D0 l => digits_val l (10 * a + 0)
  | Decimal.D1 l => digits_val l (10 * a + 1)
  | Decimal.D2 l => digits_val l (10 * a + 2)
  | Decimal.D3 l => digits_val l (10 * a + 3)
  | Decimal.D4 l => digits_val l (10 * a + 4)
  | Decimal.D5 l => digits_val l (10 * a + 5)
  | Decimal.D6 l => digits_val l (10 * a + 6)
  | Decimal.D7 l => digits_val l (10 * a + 7)
  | Decimal.D8 l => digits_val l (10 * a + 8)
  | Decimal.D9 l => digits_val l (10 * a + 9)
  end%Z.

(** The range of an [int]. *)
Definition in_int_range (n : Z) : Prop := (- 2 ^ 31 <= n < 2 ^ 31)%Z.

(** An expression that neither reads the console nor calls a definition. *)
Fixpoint is_quiet (e : Expn) : bool :=
  match e with
  | Plus a b | Mnus a b | Tmes a b | IDiv a b | IMod a b
  | Conj a b | Disj a b | Cmlt a b | Cmgt a b | Cmeq a b | Cmle a b | Cmge a b =>
      is_quiet a && is_quiet b
  | Inif a c b => is_quiet a && is_quiet c && is_quiet b
  | Imus a | Negt a | IntC a | StrC a => is_quiet a
  | Ltrl _ | Lkup _ => true
  | Inpt _ | FCll _ _ => false
  end.

(** A statement with no [return] in it, at any depth. *)
Fixpoint return_free (s : Stmt) : bool :=
  match s with
  | FRtn _ | PRtn => false
  | Cond ifcds els =>
      forallb (fun ifcd => forallb return_free (snd ifcd)) ifcds
      && match els with Some b => forallb return_free b | None => true end
  | Ifcd _ body | Else body | Elif _ body | Whil _ body | Rept _ body =>
      forallb return_free body
  | _ => true
  end.

(** [y: int = 1] followed by [print(y)]. *)
Definition declare_and_print : Blck := [Ntro "y" IntTy (Ltrl (VInt 1)); Prnt [Lkup "y"]].

(** A table and a context that know [x] as an [int]. *)
Definition x_int_symt : SymT := SymTable.add_locl "x" IntTy SymTable.empty.
Definition x_is_5 : Ctxt := <["x" := VInt 5]> ∅.

(** A call that runs out of fuel at once. *)
Definition no_body : Defn -> Ctxt -> IO -> Res (Valu * IO) := fun _ _ _ => Raise OutOfFuel.

Definition no_input : IO := mkIO [] EmptyString.

(** [def p() -> None: print("hi")] *)
Definition p_defn : Defn :=
  mkDefn "p" (SymTable.of_frmls []) [Prnt [Ltrl (VStr "hi")]] NoneTy.

(** * Properties of the checker *)

(** ** Results *)

Lemma bind_Ok {A B : Type} (m : Res A) (k : A -> Res B) (b : B) :
  m ≫= k = Ok b -> exists a, m = Ok a /\ k a = Ok b.
Proof. destruct m as [a|e]; simpl; [eauto | discriminate]. Qed.

Lemma bind_Raise {A B : Type} (m : Res A) (k : A -> Res B) (e : Exn) :
  m = Raise e -> m ≫= k = Raise e.
Proof. intros ->. reflexivity. Qed.

Lemma bind_eq_Ok {A B : Type} (m : Res A) (k : A -> Res B) (a : A) :
  m = Ok a -> m ≫= k = k a.
Proof. intros ->. reflexivity. Qed.

(** Splits a hypothesis [m ≫= k = Ok b] into the two steps. *)
Ltac inv_bind H :=
  let a := fresh "a" in
  let Ha := fresh "Hstep" in
  apply bind_Ok in H; destruct H as (a & Ha & H); simpl in H.

(** ** Types *)

Lemma ty_eq_spec (t1 t2 : Ty) : ty_eq t1 t2 = true <-> t1 = t2.
Proof. destruct t1, t2; cbv; split; congruence. Qed.

Lemma ty_ne_spec (t1 t2 : Ty) : ty_ne t1 t2 = false <-> t1 = t2.
Proof. unfold ty_ne. rewrite negb_false_iff. apply ty_eq_spec. Qed.

Lemma ty_ne_true (t1 t2 : Ty) : ty_ne t1 t2 = true <-> t1 <> t2.
Proof. unfold ty_ne. rewrite negb_true_iff, <- ty_eq_spec. now destruct (ty_eq t1 t2). Qed.

Lemma ty_ne_refl (t : Ty) : ty_ne t t = false.
Proof. now apply ty_ne_spec. Qed.

(** ** The scope stack *)

Module SymTableFacts.
Import SymTable.

Lemma pop_mark symt : pop_until_mark (mark symt) = Some symt.
Proof. destruct symt; reflexivity. Qed.

Lemma set_current_current symt : set_current (current symt) symt = symt.
Proof. destruct symt as [fs o [|f ms]]; reflexivity. Qed.

Lemma set_current_twice f g symt :
  set_current f (set_current g symt) = set_current f symt.
Proof. destruct symt as [fs o [|h ms]]; reflexivity. Qed.

Lemma current_set_current f symt : current (set_current f symt) = f.
Proof. destruct symt as [fs o [|h ms]]; reflexivity. Qed.

Lemma pop_set_current_mark f symt :
  pop_until_mark (set_current f (mark symt)) = Some symt.
Proof. destruct symt; reflexivity. Qed.

Lemma add_locl_set_current name type symt :
  add_locl name type symt = set_current (<[name := mkSymInfo name type]> (current symt)) symt.
Proof. reflexivity. Qed.

Lemma has_info_get_info name symt :
  has_info name symt = true <-> exists info, get_info name symt = Some info.
Proof. unfold has_info. rewrite bool_decide_eq_true. reflexivity. Qed.

Lemma is_redefining_true name symt :
  is_redefining name symt = true <-> exists info, current symt !! name = Some info.
Proof. unfold is_redefining. rewrite bool_decide_eq_true. reflexivity. Qed.

Lemma is_redefining_false name symt :
  is_redefining name symt = false <-> current symt !! name = None.
Proof.
  unfold is_redefining. rewrite bool_decide_eq_false, <- eq_None_not_Some. reflexivity.
Qed.

(** A binding of the current frame is the one every lookup finds. *)
Lemma get_info_current name info symt :
  current symt !! name = Some info -> get_info name symt = Some info.
Proof.
  destruct symt as [fs o [|f ms]]; unfold get_info, current; simpl; intros H;
    rewrite H; reflexivity.
Qed.

Lemma get_info_add_locl name type symt :
  get_info name (add_locl name type symt) = Some (mkSymInfo name type).
Proof.
  apply get_info_current. unfold add_locl.
  rewrite current_set_current. apply lookup_insert_eq.
Qed.

(** A binding seen through a new mark is the binding of the enclosing
    scopes. *)
Lemma get_info_mark name symt : get_info name (mark symt) = get_info name symt.
Proof. unfold get_info. simpl. rewrite lookup_empty. reflexivity. Qed.

Lemma get_info_add_locl_ne name name' type symt :
  name <> name' -> get_info name (add_locl name' type symt) = get_info name symt.
Proof.
  intros Hne. destruct symt as [fs o [|f ms]]; unfold get_info, add_locl; simpl;
    rewrite lookup_insert_ne by congruence; reflexivity.
Qed.

End SymTableFacts.

(** ** What checking keeps true

    Two facts about every successful check, proved together: the behaviour
    of a statement is [Void] or carries the type of the expected return, and
    checking a statement changes the current frame only, so that a block
    leaves the table as it found it. *)

Lemma same_scopes_refl symt : same_scopes symt symt.
Proof. exists (SymTable.current symt). symmetry. apply SymTableFacts.set_current_current. Qed.

Lemma same_scopes_trans s1 s2 s3 : same_scopes s1 s2 -> same_scopes s2 s3 -> same_scopes s1 s3.
Proof.
  intros [f ->] [g ->]. exists g. apply SymTableFacts.set_current_twice.
Qed.

Lemma same_scopes_add_locl name type symt : same_scopes symt (SymTable.add_locl name type symt).
Proof. eexists. apply SymTableFacts.add_locl_set_current. Qed.

Lemma same_scopes_pop_mark symt symt' :
  same_scopes (SymTable.mark symt) symt' -> SymTable.pop_until_mark symt' = Some symt.
Proof. intros [f ->]. apply SymTableFacts.pop_set_current_mark. Qed.

Section Invariants.
Variable defs : Defs.

Lemma Blck_loop_sound expd stmts :
  Forall (chck_sound defs) stmts ->
  forall acc symt r symt',
    rtns_agrees expd acc ->
    Blck_loop defs expd stmts acc symt = Ok (r, symt') ->
    rtns_agrees expd r /\ same_scopes symt symt'.
Proof.
  induction 1 as [|stmt rest Hstmt Hrest IH]; intros acc symt r symt' Hacc Hloop.
  - simpl in Hloop. inversion Hloop; subst. split; [assumption | apply same_scopes_refl].
  - simpl in Hloop. inv_bind Hloop. destruct a as [stmt_rtns symt1].
    apply Hstmt in Hstep as [Hag Hsc].
    destruct stmt_rtns as [|t|t]; simpl in Hloop.
    + apply IH in Hloop as [? ?]; [|assumption]. split; [assumption|].
      eapply same_scopes_trans; eassumption.
    + destruct (holds_Void acc).
      * apply IH in Hloop as [? ?]; [|assumption]. split; [assumption|].
        eapply same_scopes_trans; eassumption.
      * destruct (ty_ne (type_of acc) t); [discriminate|].
        apply IH in Hloop as [? ?]; [|assumption]. split; [assumption|].
        eapply same_scopes_trans; eassumption.
    + destruct (negb (holds_Void acc) && ty_ne (type_of acc) t); [discriminate|].
      inversion Hloop; subst. split; assumption.
Qed.

Lemma Blck_chck_sound stmts : Forall (chck_sound defs) stmts -> blck_sound defs stmts.
Proof.
  intros Hall expd symt r symt' Hchck.
  unfold Blck_chck, Blck_chck_with in Hchck. inv_bind Hchck. destruct a as [rtns symt1].
  apply (Blck_loop_sound expd stmts Hall) in Hstep as [Hag Hsc]; [|left; reflexivity].
  rewrite (same_scopes_pop_mark _ _ Hsc) in Hchck. inversion Hchck; subst. split; trivial.
Qed.

Lemma Cond_arm_inv at_ expd r0 return_pt body_rt r' :
  rtns_agrees expd body_rt ->
  cond_inv expd r0 return_pt ->
  Cond_arm at_ return_pt (type_of r0) (holds_Void r0) (has_void r0) body_rt = Ok r' ->
  cond_inv expd r0 r'.
Proof.
  intros Hbody [Hag Hvoid]. unfold Cond_arm.
  destruct body_rt as [|t|t]; simpl.
  - destruct (holds_Void r0) eqn:Hr0; simpl; intros [= <-].
    + split; [assumption | intros _; exact Hr0].
    + split; [|discriminate]. right.
      destruct Hag as [-> | Hag]; [|exact Hag]. simpl in Hvoid. now specialize (Hvoid eq_refl).
  - destruct (ty_ne (type_of r0) t) eqn:Hne; [discriminate|]. apply ty_ne_spec in Hne.
    rewrite orb_true_r. intros [= <-]. split; [|discriminate].
    right. simpl. destruct Hbody as [?|Hbody]; [discriminate|]. simpl in Hbody. congruence.
  - destruct (ty_ne (type_of r0) t) eqn:Hne; [discriminate|]. apply ty_ne_spec in Hne.
    rewrite orb_false_r. destruct (has_void r0); intros [= <-].
    + split; [|discriminate]. right. simpl.
      destruct Hbody as [?|Hbody]; [discriminate|]. simpl in Hbody. congruence.
    + split; assumption.
Qed.

Lemma Cond_elifs_sound expd body0 r0 :
  blck_sound defs body0 ->
  forall arms i return_pt symt r symt',
    cond_inv expd r0 return_pt ->
    Cond_elifs (Blck_chck defs) expd body0 (type_of r0) (holds_Void r0) (has_void r0)
               i arms return_pt symt = Ok (r, symt') ->
    cond_inv expd r0 r /\ symt' = symt.
Proof.
  intros Hbody0. induction arms as [|arm arms IH]; intros i return_pt symt r symt' Hinv Hloop.
  - simpl in Hloop. inversion Hloop; subst. split; trivial.
  - simpl in Hloop. inv_bind Hloop. destruct a as [body_rt symt1].
    apply Hbody0 in Hstep as [Hag ->]. inv_bind Hloop.
    apply (Cond_arm_inv _ expd r0) in Hstep; [|assumption..].
    eapply IH; eassumption.
Qed.

Lemma Cond_chck_sound ifcds els :
  Forall (fun ifcd => blck_sound defs (snd ifcd)) ifcds ->
  match els with Some b => blck_sound defs b | None => True end ->
  forall expd symt r symt',
    Cond_chck defs expd ifcds els symt = Ok (r, symt') ->
    rtns_agrees expd r /\ symt' = symt.
Proof.
  intros Harms Hels expd symt r symt' Hchck.
  unfold Cond_chck, Cond_chck_with in Hchck.
  destruct ifcds as [|[cond0 body0] arms]; [discriminate|].
  inversion Harms as [|? ? Hbody0 _]; subst. simpl in Hbody0.
  inv_bind Hchck. clear Hstep. inv_bind Hchck. destruct a0 as [r0 symt1].
  pose proof Hstep as Hfirst. apply Hbody0 in Hfirst as [Hag0 ->].
  inv_bind Hchck. destruct a0 as [return_pt symt2].
  apply (Cond_elifs_sound expd body0 r0 Hbody0) in Hstep0 as [Hinv ->];
    [|split; [assumption | trivial]].
  destruct els as [els_body|]; [|discriminate].
  inv_bind Hchck. destruct a0 as [body_rt symt3].
  apply Hels in Hstep0 as [Hagb ->]. inv_bind Hchck.
  apply (Cond_arm_inv _ expd r0) in Hstep0; [|assumption..].
  inversion Hchck; subst. split; [apply Hstep0 | reflexivity].
Qed.

Lemma Whil_chck_sound cond body :
  blck_sound defs body ->
  forall expd symt r symt',
    Whil_chck defs expd cond body symt = Ok (r, symt') ->
    rtns_agrees expd r /\ symt' = symt.
Proof.
  intros Hbody expd symt r symt' Hchck. unfold Whil_chck, Whil_chck_with in Hchck.
  inv_bind Hchck. destruct (ty_ne a BOOL_T); [discriminate|].
  inv_bind Hchck. destruct a0 as [body_tp symt1].
  apply Hbody in Hstep0 as [Hag ->].
  destruct body_tp as [|t|t]; simpl in Hchck; inversion Hchck; subst;
    (split; [|reflexivity]); try (left; reflexivity);
    destruct Hag as [?|Hag]; (discriminate || (right; exact Hag)).
Qed.

Lemma Rept_chck_sound cond body :
  blck_sound defs body ->
  forall expd symt r symt',
    Rept_chck defs expd cond body symt = Ok (r, symt') ->
    rtns_agrees expd r /\ symt' = symt.
Proof.
  intros Hbody expd symt r symt' Hchck. unfold Rept_chck, Rept_chck_with in Hchck.
  inv_bind Hchck. destruct (ty_ne a BOOL_T); [discriminate|].
  inv_bind Hchck. destruct a0 as [body_tp symt1].
  apply Hbody in Hstep0 as [Hag ->].
  destruct body_tp as [|t|t]; simpl in Hchck; inversion Hchck; subst;
    (split; [|reflexivity]); try (left; reflexivity);
    destruct Hag as [?|Hag]; (discriminate || (right; exact Hag)).
Qed.

(** Every statement's behaviour is [Void] or carries the expected type,
    and checking a statement touches the current frame only. *)
Lemma Stmt_chck_sound s : chck_sound defs s.
Proof.
  induction s using Stmt_nested_ind; intros expd symt r symt' Hchck; simpl in Hchck.
  - (* Asgn *)
    unfold Asgn_chck in Hchck.
    destruct (negb (SymTable.has_info name symt)); [discriminate|].
    destruct (SymTable.get_info name symt); [|discriminate].
    inv_bind Hchck. destruct (ty_ne _ _); [discriminate|].
    inversion Hchck; subst. split; [left; reflexivity | apply same_scopes_refl].
  - (* Ntro *)
    unfold Ntro_chck in Hchck.
    destruct (SymTable.is_redefining name symt); [discriminate|].
    inv_bind Hchck. inversion Hchck; subst.
    split; [left; reflexivity | apply same_scopes_add_locl].
  - (* Pleq *)
    unfold Pleq_chck in Hchck.
    destruct (negb (SymTable.has_info name symt)); [discriminate|].
    destruct (SymTable.get_info name symt); [|discriminate].
    inv_bind Hchck.
    assert (r = RVoid /\ symt' = symt) as [-> ->].
    { destruct (_ && _); [now inversion Hchck|]. destruct (_ && _); [now inversion Hchck|].
      discriminate. }
    split; [left; reflexivity | apply same_scopes_refl].
  - (* Mneq *)
    unfold Mneq_chck in Hchck.
    destruct (negb (SymTable.has_info name symt)); [discriminate|].
    destruct (SymTable.get_info name symt); [|discriminate].
    inv_bind Hchck. destruct (_ && _); [|discriminate]. inversion Hchck; subst.
    split; [left; reflexivity | apply same_scopes_refl].
  - (* Cond *)
    apply Cond_chck_sound in Hchck as [? ->].
    + split; [assumption | apply same_scopes_refl].
    + eapply Forall_impl; [eassumption|]. intros ifcd. apply Blck_chck_sound.
    + destruct els; [|exact I]. now apply Blck_chck_sound.
  - discriminate.
  - discriminate.
  - discriminate.
  - (* Whil *)
    apply Whil_chck_sound in Hchck as [? ->]; [|now apply Blck_chck_sound].
    split; [assumption | apply same_scopes_refl].
  - (* Rept *)
    apply Rept_chck_sound in Hchck as [? ->]; [|now apply Blck_chck_sound].
    split; [assumption | apply same_scopes_refl].
  - (* FRtn *)
    unfold FRtn_chck in Hchck. destruct expn; [|discriminate].
    inv_bind Hchck. destruct (ty_eq _ _); [|discriminate]. inversion Hchck; subst.
    split; [right; reflexivity | apply same_scopes_refl].
  - (* PRtn *)
    unfold PRtn_chck in Hchck. destruct (holds_Void expd); [discriminate|].
    destruct (is_None (type_of expd)) eqn:Hnone; [|discriminate]. simpl in Hchck.
    inversion Hchck; subst. split; [|apply same_scopes_refl].
    right. simpl. now destruct (type_of expd).
  - (* Prnt *)
    inv_bind Hchck. inversion Hchck; subst.
    split; [left; reflexivity | apply same_scopes_refl].
  - (* Pass *)
    inversion Hchck; subst. split; [left; reflexivity | apply same_scopes_refl].
  - (* PCll *)
    unfold PCll_chck in Hchck. inv_bind Hchck. inversion Hchck; subst.
    split; [left; reflexivity | apply same_scopes_refl].
  - discriminate.
Qed.

Lemma Blck_chck_restores expd stmts symt r symt' :
  Blck_chck defs expd stmts symt = Ok (r, symt') ->
  rtns_agrees expd r /\ symt' = symt.
Proof.
  apply Blck_chck_sound. apply Forall_forall. intros s _. apply Stmt_chck_sound.
Qed.
End Invariants.

(** ** Sequential merge *)

Lemma Blck_loop_nil defs expd acc symt : Blck_loop defs expd [] acc symt = Ok (acc, symt).
Proof. reflexivity. Qed.

Lemma Blck_loop_Void defs expd s rest acc symt symt' :
  Stmt_chck defs expd s symt = Ok (RVoid, symt') ->
  Blck_loop defs expd (s :: rest) acc symt = Blck_loop defs expd rest acc symt'.
Proof. intros H. unfold Blck_loop. simpl. rewrite H. reflexivity. Qed.

Lemma Blck_loop_VoidOr defs expd s rest T acc symt symt' :
  Stmt_chck defs expd s symt = Ok (RVoidOr T, symt') ->
  Blck_loop defs expd (s :: rest) acc symt =
    match acc with
    | RVoid => Blck_loop defs expd rest (RVoidOr T) symt'
    | _ => if decide (type_of acc = T) then Blck_loop defs expd rest acc symt'
           else Raise (DwislpyError "Statement might return different types.")
    end.
Proof.
  intros H. unfold Blck_loop. simpl. rewrite H. simpl.
  destruct acc as [|T'|T']; simpl; try reflexivity.
  all: destruct (decide (T' = T)) as [->|Hne];
    [rewrite ty_ne_refl | apply ty_ne_true in Hne; rewrite Hne]; reflexivity.
Qed.

Lemma Blck_loop_Type defs expd s rest T acc symt symt' :
  Stmt_chck defs expd s symt = Ok (RType T, symt') ->
  acc = RVoid \/ type_of acc = T ->
  Blck_loop defs expd (s :: rest) acc symt = Ok (RType T, symt').
Proof.
  intros H Hacc. unfold Blck_loop. simpl. rewrite H. simpl.
  destruct Hacc as [-> | <-]; [reflexivity|].
  rewrite ty_ne_refl, andb_false_r. reflexivity.
Qed.

(** A prefix that ran to its end, with no statement that always returns,
    hands its accumulator to the rest of the block. *)
Lemma Blck_loop_app defs expd pre post :
  forall acc symt acc1 symt1,
    Blck_loop defs expd pre acc symt = Ok (acc1, symt1) ->
    holds_Type acc1 = false ->
    Blck_loop defs expd (pre ++ post) acc symt = Blck_loop defs expd post acc1 symt1.
Proof.
  unfold Blck_loop.
  induction pre as [|stmt rest IH]; intros acc symt acc1 symt1 Hpre Hacc1.
  - inversion Hpre; subst. reflexivity.
  - simpl in *. destruct (Stmt_chck defs expd stmt symt) as [[stmt_rtns symt']|e]; [|discriminate].
    simpl in *. destruct stmt_rtns as [|T|T]; simpl in *.
    + now apply IH.
    + destruct (holds_Void acc); [now apply IH|].
      destruct (ty_ne (type_of acc) T); [discriminate | now apply IH].
    + destruct (negb (holds_Void acc) && ty_ne (type_of acc) T); [discriminate|].
      inversion Hpre; subst. discriminate.
Qed.

Lemma Blck_chck_of_loop defs expd stmts symt acc symt1 :
  Blck_loop defs expd stmts RVoid (SymTable.mark symt) = Ok (acc, symt1) ->
  Blck_chck defs expd stmts symt = Ok (acc, symt).
Proof.
  intros Hloop. unfold Blck_chck, Blck_chck_with. fold (Blck_loop defs). rewrite Hloop. simpl.
  apply (Blck_loop_sound defs expd stmts) in Hloop as [_ Hsc].
  - rewrite (same_scopes_pop_mark _ _ Hsc). reflexivity.
  - apply Forall_forall. intros s _. apply Stmt_chck_sound.
  - left; reflexivity.
Qed.

(** C7.  [Blck::chck] folds the behaviours of the statements from left to
    right.  The accumulator the loop ends with is the block's result; a
    [Void] statement leaves the accumulator as it is; a [VoidOr T] statement
    turns an accumulated [Void] into [VoidOr T], and on an accumulated
    [VoidOr T'] it is accepted when [T' = T] and raises "Statement might
    return different types." otherwise; a statement whose behaviour is
    [Type T], reached after statements none of which always returns, makes
    the behaviour of the block [Type T], whatever statements follow it. *)
Theorem Blck_chck_sequential_merge (defs : Defs) (expd : Rtns) :
  (forall stmts symt acc symt1,
      Blck_loop defs expd stmts RVoid (SymTable.mark symt) = Ok (acc, symt1) ->
      Blck_chck defs expd stmts symt = Ok (acc, symt)) /\
  (forall acc symt, Blck_loop defs expd [] acc symt = Ok (acc, symt)) /\
  (forall s rest acc symt symt',
      Stmt_chck defs expd s symt = Ok (RVoid, symt') ->
      Blck_loop defs expd (s :: rest) acc symt = Blck_loop defs expd rest acc symt') /\
  (forall s rest T symt symt',
      Stmt_chck defs expd s symt = Ok (RVoidOr T, symt') ->
      Blck_loop defs expd (s :: rest) RVoid symt = Blck_loop defs expd rest (RVoidOr T) symt') /\
  (forall s rest T T' symt symt',
      Stmt_chck defs expd s symt = Ok (RVoidOr T, symt') ->
      Blck_loop defs expd (s :: rest) (RVoidOr T') symt =
        if decide (T' = T) then Blck_loop defs expd rest (RVoidOr T') symt'
        else Raise (DwislpyError "Statement might return different types.")) /\
  (forall pre s post T symt acc symt1 symt2,
      Blck_loop defs expd pre RVoid (SymTable.mark symt) = Ok (acc, symt1) ->
      holds_Type acc = false ->
      Stmt_chck defs expd s symt1 = Ok (RType T, symt2) ->
      Blck_chck defs expd (pre ++ s :: post)%list symt = Ok (RType T, symt)).
Proof.
  repeat split.
  - apply Blck_chck_of_loop.
  - intros. now apply Blck_loop_Void.
  - intros s rest T symt symt' H. now rewrite (Blck_loop_VoidOr _ _ _ _ _ _ _ _ H).
  - intros s rest T T' symt symt' H. now rewrite (Blck_loop_VoidOr _ _ _ _ _ _ _ _ H).
  - intros pre s post T symt acc symt1 symt2 Hpre Hacc Hs.
    eapply Blck_chck_of_loop. rewrite (Blck_loop_app _ _ _ _ _ _ _ _ Hpre Hacc).
    apply Blck_loop_Type; [exact Hs|].
    pose proof Hpre as Hag. apply (Blck_loop_sound defs expd pre) in Hag as [Hag _].
    + apply (Stmt_chck_sound defs) in Hs as [[?|Hs] _]; [discriminate|].
      destruct Hag as [-> | Hag]; [left; reflexivity | right]. simpl in Hs. congruence.
    + apply Forall_forall. intros ? _. apply Stmt_chck_sound.
    + left; reflexivity.
Qed.

(** ** Loops *)

Lemma Whil_chck_rule defs expd cond body symt :
  Stmt_chck defs expd (Whil cond body) symt =
    cond_tp ← Expn_chck defs symt cond;
    if decide (cond_tp = BoolTy) then
      '(r, symt') ← Blck_chck defs expd body symt; Ok (spec_loop_merge r, symt')
    else Raise (DwislpyError ("The condition for while should have type Bool but got " +:+
                              get_type_str cond_tp)).
Proof.
  simpl. unfold Whil_chck_with. fold (Blck_chck defs).
  destruct (Expn_chck defs symt cond) as [t|e]; [simpl | reflexivity].
  destruct (decide (t = BoolTy)) as [->|Hne].
  - simpl. destruct (Blck_chck defs expd body symt) as [[[|T|T] symt']|e]; reflexivity.
  - apply ty_ne_true in Hne. unfold BOOL_T. rewrite Hne. reflexivity.
Qed.

Lemma Rept_chck_rule defs expd cond body symt :
  Stmt_chck defs expd (Rept cond body) symt =
    cond_tp ← Expn_chck defs symt cond;
    if decide (cond_tp = BoolTy) then
      '(r, symt') ← Blck_chck defs expd body symt; Ok (spec_loop_merge r, symt')
    else Raise (DwislpyError ("The condition for repeat should have type Bool but got " +:+
                              get_type_str cond_tp)).
Proof.
  simpl. unfold Rept_chck_with. fold (Blck_chck defs).
  destruct (Expn_chck defs symt cond) as [t|e]; [simpl | reflexivity].
  destruct (decide (t = BoolTy)) as [->|Hne].
  - simpl. destruct (Blck_chck defs expd body symt) as [[[|T|T] symt']|e]; reflexivity.
  - apply ty_ne_true in Hne. unfold BOOL_T. rewrite Hne. reflexivity.
Qed.

(** C8.  [Whil::chck] and [Rept::chck] follow one rule.  They succeed on the
    same inputs with the same result; both need a condition of type [bool]
    and raise a semantic error for a condition of another type; an error of
    the condition or of the body is passed on by both; on a body of behaviour
    [r] both yield the loop merge of the specification, [Void] for [Void]
    and [VoidOr T] for [Type T] and for [VoidOr T].  In particular a body
    that always returns makes the repeat loop [VoidOr T], as it makes the
    while loop. *)
Theorem Whil_Rept_chck_same_rule (defs : Defs) (expd : Rtns) (cond : Expn) (body : Blck)
    (symt : SymT) :
  let whil := Stmt_chck defs expd (Whil cond body) symt in
  let rept := Stmt_chck defs expd (Rept cond body) symt in
  (forall res, whil = Ok res <-> rept = Ok res) /\
  (is_Ok whil = is_Ok rept) /\
  (forall res, whil = Ok res -> Expn_chck defs symt cond = Ok BoolTy) /\
  (forall t, Expn_chck defs symt cond = Ok t -> t <> BoolTy ->
     (exists msg, whil = Raise (DwislpyError msg)) /\
     (exists msg, rept = Raise (DwislpyError msg))) /\
  (forall e, Expn_chck defs symt cond = Raise e -> whil = Raise e /\ rept = Raise e) /\
  (forall e, Expn_chck defs symt cond = Ok BoolTy ->
     Blck_chck defs expd body symt = Raise e -> whil = Raise e /\ rept = Raise e) /\
  (forall r symt', Expn_chck defs symt cond = Ok BoolTy ->
     Blck_chck defs expd body symt = Ok (r, symt') ->
     whil = Ok (spec_loop_merge r, symt') /\ rept = Ok (spec_loop_merge r, symt')) /\
  (forall T symt', Expn_chck defs symt cond = Ok BoolTy ->
     Blck_chck defs expd body symt = Ok (RType T, symt') ->
     whil = Ok (RVoidOr T, symt') /\ rept = Ok (RVoidOr T, symt')).
Proof.
  intros whil rept. subst whil rept. rewrite Whil_chck_rule, Rept_chck_rule.
  destruct (Expn_chck defs symt cond) as [t|e]; simpl.
  - destruct (decide (t = BoolTy)) as [->|Hne].
    + destruct (Blck_chck defs expd body symt) as [[r symt']|e]; simpl;
        repeat split; intros; simplify_eq; try reflexivity; try congruence.
    + repeat split; intros; try congruence; try discriminate; eauto.
  - repeat split; intros; try congruence; try discriminate.
Qed.

Lemma Whil_Rept_chck_same_rule_witness :
  Stmt_chck ∅ (RType IntTy) (Rept (Ltrl (VBool true)) [FRtn (Some (Ltrl (VInt 1%Z)))])
            SymTable.empty = Ok (RVoidOr IntTy, SymTable.empty).
Proof.
  apply (Whil_Rept_chck_same_rule ∅ (RType IntTy) (Ltrl (VBool true))
           [FRtn (Some (Ltrl (VInt 1%Z)))] SymTable.empty); reflexivity.
Defined.

(** ** Induction over expressions, through the actuals of a call *)

Lemma Expn_nested_ind (P : Expn -> Prop)
  (HPlus : forall lf rg, P lf -> P rg -> P (Plus lf rg))
  (HMnus : forall lf rg, P lf -> P rg -> P (Mnus lf rg))
  (HTmes : forall lf rg, P lf -> P rg -> P (Tmes lf rg))
  (HIDiv : forall lf rg, P lf -> P rg -> P (IDiv lf rg))
  (HIMod : forall lf rg, P lf -> P rg -> P (IMod lf rg))
  (HImus : forall expn, P expn -> P (Imus expn))
  (HInif : forall if_br cond else_br, P if_br -> P cond -> P else_br -> P (Inif if_br cond else_br))
  (HNegt : forall expn, P expn -> P (Negt expn))
  (HConj : forall lft rht, P lft -> P rht -> P (Conj lft rht))
  (HDisj : forall lft rht, P lft -> P rht -> P (Disj lft rht))
  (HCmlt : forall lft rht, P lft -> P rht -> P (Cmlt lft rht))
  (HCmgt : forall lft rht, P lft -> P rht -> P (Cmgt lft rht))
  (HCmeq : forall lft rht, P lft -> P rht -> P (Cmeq lft rht))
  (HCmle : forall lft rht, P lft -> P rht -> P (Cmle lft rht))
  (HCmge : forall lft rht, P lft -> P rht -> P (Cmge lft rht))
  (HFCll : forall name actuals, Forall P actuals -> P (FCll name actuals))
  (HLtrl : forall valu, P (Ltrl valu))
  (HLkup : forall name, P (Lkup name))
  (HInpt : forall expn, P expn -> P (Inpt expn))
  (HIntC : forall expn, P expn -> P (IntC expn))
  (HStrC : forall expn, P expn -> P (StrC expn)) :
  forall e, P e.
Proof.
  fix IH 1. intros e. destruct e as [| | | | | | | | | | | | | | |name actuals| | | | |].
  16: { apply HFCll. induction actuals as [|a actuals IHa]; constructor;
        [apply IH | exact IHa]. }
  all: first [ apply HPlus | apply HMnus | apply HTmes | apply HIDiv | apply HIMod
             | apply HImus | apply HInif | apply HNegt | apply HConj | apply HDisj
             | apply HCmlt | apply HCmgt | apply HCmeq | apply HCmle | apply HCmge
             | apply HLtrl | apply HLkup | apply HInpt | apply HIntC | apply HStrC ];
       apply IH.
Qed.

(** ** Messages of the expression checker *)

Lemma bind_Raise_inv {A B : Type} (m : Res A) (k : A -> Res B) (e : Exn) :
  m ≫= k = Raise e -> m = Raise e \/ exists a, m = Ok a /\ k a = Raise e.
Proof. destruct m as [a|e']; simpl; [eauto | intros [= ->]; now left]. Qed.

Lemma chck_args_msg chck sep :
  forall actuals i fmls err,
    Forall (fun a => forall err, chck a = Raise err -> not_V err) actuals ->
    chck_args_with chck sep i fmls actuals = Raise err -> not_V err.
Proof.
  induction actuals as [|arg actuals IH]; intros i fmls err Hall H; [discriminate|].
  inversion Hall as [|? ? Harg Hrest]; subst.
  destruct fmls as [|fm fmls]; [discriminate|]. simpl in H.
  apply bind_Raise_inv in H as [H | (t & _ & H)]; [now apply Harg|].
  destruct (ty_ne _ _); [injection H as <-; discriminate | eapply IH; eassumption].
Qed.

Lemma Expn_chck_msg defs symt e :
  forall err, Expn_chck defs symt e = Raise err -> not_V err.
Proof.
  induction e using Expn_nested_ind; intros err Herr; simpl in Herr;
    unfold chck_int_int, chck_bool_bool in *;
    repeat match goal with
      | H : _ ≫= _ = Raise _ |- _ =>
          apply bind_Raise_inv in H as [H | (? & _ & H)]; [now eauto|]
      | H : (if ?c then _ else _) = Raise _ |- _ => destruct c
      | H : Ok _ = Raise _ |- _ => discriminate H
      | H : Raise (DwislpyError _) = Raise _ |- _ => injection H as <-; discriminate
      end.
  2: { destruct valu; discriminate. }
  2: { destruct (SymTable.get_info name symt); [discriminate|].
       injection Herr as <-. discriminate. }
  (* FCll: the argument loop is left *)
  apply bind_Raise_inv in Herr as [Herr | (? & _ & Herr)]; [|discriminate].
  unfold chck_call_with in Herr.
  destruct (defs !! name); [|injection Herr as <-; discriminate].
  destruct (negb _); [injection Herr as <-; discriminate|].
  apply bind_Raise_inv in Herr as [Herr | (? & _ & Herr)]; [|discriminate].
  eapply chck_args_msg; eassumption.
Qed.

Lemma Expn_chck_not_redefinition defs symt e name :
  Expn_chck defs symt e <> Raise (redefinition_error name).
Proof. intros H. now apply Expn_chck_msg in H. Qed.

(** ** Declarations *)

Lemma later_scope_get_info name symt symt' :
  later_scope name symt symt' -> SymTable.get_info name symt' = SymTable.get_info name symt.
Proof.
  induction 1 as [|symt' _ IH|symt' name' type' Hne _ IH].
  - reflexivity.
  - rewrite SymTableFacts.get_info_mark. exact IH.
  - rewrite SymTableFacts.get_info_add_locl_ne by congruence. exact IH.
Qed.

Lemma Lkup_chck_get_info defs symt name info :
  SymTable.get_info name symt = Some info ->
  Expn_chck defs symt (Lkup name) = Ok (sym_type info).
Proof.
  intros H. simpl. unfold SymTable.has_info. rewrite H.
  rewrite bool_decide_eq_true_2 by eauto. reflexivity.
Qed.

Lemma Ntro_chck_redefining defs expd name type expn symt :
  SymTable.is_redefining name symt = true ->
  Stmt_chck defs expd (Ntro name type expn) symt = Raise (redefinition_error name).
Proof. intros H. simpl. unfold Ntro_chck. rewrite H. reflexivity. Qed.

Lemma Ntro_chck_fresh defs expd name type expn symt t :
  SymTable.is_redefining name symt = false ->
  Expn_chck defs symt expn = Ok t ->
  Stmt_chck defs expd (Ntro name type expn) symt = Ok (RVoid, SymTable.add_locl name t symt).
Proof. intros H He. simpl. unfold Ntro_chck. rewrite H, He. reflexivity. Qed.

Lemma is_redefining_mark name symt : SymTable.is_redefining name (SymTable.mark symt) = false.
Proof. apply SymTableFacts.is_redefining_false. apply lookup_empty. Qed.

Lemma is_redefining_add_locl name type symt :
  SymTable.is_redefining name (SymTable.add_locl name type symt) = true.
Proof.
  apply SymTableFacts.is_redefining_true. unfold SymTable.add_locl.
  rewrite SymTableFacts.current_set_current, lookup_insert_eq. eauto.
Qed.

(** C9.  [Ntro::chck] raises the redefinition error exactly when the name
    has an entry in the current innermost frame.  When it has none there,
    whatever the enclosing frames bind, and the initializer checks to [t],
    the declaration is accepted and binds the name in the current frame.
    Two declarations of one name in one block are rejected; a block that
    declares a name is accepted in every table, also in one whose frames
    bind the name already, as the body of an [if] is under an outer
    declaration. *)
Theorem Ntro_chck_redefinition (defs : Defs) (expd : Rtns) (name : Name) (type : Ty)
    (expn : Expn) (symt : SymT) :
  (Stmt_chck defs expd (Ntro name type expn) symt = Raise (redefinition_error name) <->
   is_Some (SymTable.current symt !! name)) /\
  (forall t, SymTable.current symt !! name = None ->
     Expn_chck defs symt expn = Ok t ->
     Stmt_chck defs expd (Ntro name type expn) symt =
       Ok (RVoid, SymTable.add_locl name t symt) /\
     SymTable.current (SymTable.add_locl name t symt) !! name = Some (mkSymInfo name t)) /\
  (forall t type2 expn2,
     Expn_chck defs (SymTable.mark symt) expn = Ok t ->
     Blck_chck defs expd [Ntro name type expn; Ntro name type2 expn2] symt =
       Raise (redefinition_error name)) /\
  (forall t,
     Expn_chck defs (SymTable.mark symt) expn = Ok t ->
     Blck_chck defs expd [Ntro name type expn] symt = Ok (RVoid, symt)).
Proof.
  repeat split.
  - intros H. destruct (SymTable.is_redefining name symt) eqn:Hre.
    + apply SymTableFacts.is_redefining_true in Hre. exact Hre.
    + simpl in H. unfold Ntro_chck in H. rewrite Hre in H.
      destruct (Expn_chck defs symt expn) as [t|e] eqn:He; [discriminate|].
      simpl in H. injection H as ->. now apply Expn_chck_not_redefinition in He.
  - intros H. apply Ntro_chck_redefining. now apply SymTableFacts.is_redefining_true.
  - apply Ntro_chck_fresh; [|assumption]. now apply SymTableFacts.is_redefining_false.
  - unfold SymTable.add_locl. rewrite SymTableFacts.current_set_current. apply lookup_insert_eq.
  - intros t type2 expn2 He. unfold Blck_chck, Blck_chck_with. fold (Blck_loop defs).
    rewrite (Blck_loop_Void _ _ _ _ _ _ _
               (Ntro_chck_fresh _ expd _ type _ _ t (is_redefining_mark _ _) He)).
    unfold Blck_loop. cbn [Blck_loop_with].
    rewrite Ntro_chck_redefining by apply is_redefining_add_locl. reflexivity.
  - intros t He. apply Blck_chck_of_loop with (symt1 := SymTable.add_locl name t (SymTable.mark symt)).
    rewrite (Blck_loop_Void _ _ _ _ _ _ _
               (Ntro_chck_fresh _ expd _ type _ _ t (is_redefining_mark _ _) He)).
    reflexivity.
Qed.

(** C10.  [Ntro::chck] does not read the annotation of the node: the check
    of a declaration is the same for every annotation.  A declaration whose
    name is not a redefinition and whose initializer checks to [t] is
    accepted and binds the name to [t]: a lookup of the name yields [t] in
    the resulting table and in every later scope of it. *)
Theorem Ntro_chck_binds_initializer_type (defs : Defs) (expd : Rtns) (name : Name)
    (type : Ty) (expn : Expn) (symt : SymT) :
  (forall type', Stmt_chck defs expd (Ntro name type' expn) symt =
                 Stmt_chck defs expd (Ntro name type expn) symt) /\
  (forall t, SymTable.is_redefining name symt = false ->
     Expn_chck defs symt expn = Ok t ->
     exists symt',
       Stmt_chck defs expd (Ntro name type expn) symt = Ok (RVoid, symt') /\
       SymTable.get_info name symt' = Some (mkSymInfo name t) /\
       forall symt'', later_scope name symt' symt'' ->
                      Expn_chck defs symt'' (Lkup name) = Ok t).
Proof.
  split; [reflexivity|]. intros t Hre He. exists (SymTable.add_locl name t symt).
  split; [now apply Ntro_chck_fresh|]. split; [apply SymTableFacts.get_info_add_locl|].
  intros symt'' Hlater. apply later_scope_get_info in Hlater.
  rewrite SymTableFacts.get_info_add_locl in Hlater.
  now rewrite (Lkup_chck_get_info _ _ _ _ Hlater).
Qed.

(** ** The checker and the interpreter *)

(** C1, which the code does not meet.  A script that passes [Prgm::chck]
    raises the run-time error of [Mnus::eval] for operands of the wrong
    type, and another one reads a variable that no declaration bound: the
    body of the [elif] arm was never checked. *)
Theorem checked_program_fails_at_run_time :
  Prgm_chck (script [elif_minus]) = Ok tt /\
  (forall fuel io,
     Prgm_run fuel (script [elif_minus]) io =
       Raise (DwislpyError "Run-time error: wrong operand type for minus.")) /\
  Prgm_chck (script [elif_undeclared]) = Ok tt /\
  (forall fuel io,
     Prgm_run fuel (script [elif_undeclared]) io =
       Raise (DwislpyError "Run-time error: variable 'y'not defined.")).
Proof. repeat split. Qed.

(** ** Conditionals *)

Lemma Cond_elifs_bodies_unread defs expd body0 return_tp rt_is_void rt_has_void :
  forall arms arms' i return_pt symt,
    length arms = length arms' ->
    Cond_elifs (Blck_chck defs) expd body0 return_tp rt_is_void rt_has_void
               i arms return_pt symt =
    Cond_elifs (Blck_chck defs) expd body0 return_tp rt_is_void rt_has_void
               i arms' return_pt symt.
Proof.
  induction arms as [|arm arms IH]; intros [|arm' arms'] i return_pt symt Hlen;
    try discriminate; [reflexivity|].
  simpl. destruct (Blck_chck defs expd body0 symt) as [[body_rt symt1]|e]; [|reflexivity].
  simpl. destruct (Cond_arm _ _ _ _ _ _) as [return_pt'|e]; [|reflexivity].
  simpl. apply IH. now injection Hlen.
Qed.

Lemma Cond_conds_bodies_unread defs symt :
  forall arms arms' i,
    map fst arms = map fst arms' ->
    Cond_conds defs symt i arms = Cond_conds defs symt i arms'.
Proof.
  induction arms as [|[c b] arms IH]; intros [|[c' b'] arms'] i Hmap;
    try discriminate; [reflexivity|].
  simpl in Hmap. injection Hmap as <- Hmap. simpl.
  destruct (Expn_chck defs symt c) as [t|e]; [|reflexivity]. simpl.
  destruct (ty_ne t BOOL_T); [reflexivity|]. now apply IH.
Qed.

(** The bodies of the [elif] arms do not influence the check. *)
Lemma Cond_chck_elif_bodies_unread defs expd cond0 body0 arms arms' els symt :
  map fst arms = map fst arms' ->
  Stmt_chck defs expd (Cond ((cond0, body0) :: arms) els) symt =
  Stmt_chck defs expd (Cond ((cond0, body0) :: arms') els) symt.
Proof.
  intros Hmap. cbn [Stmt_chck]. unfold Cond_chck_with. fold (Blck_chck defs).
  rewrite (Cond_conds_bodies_unread defs symt ((cond0, body0) :: arms)
             ((cond0, body0) :: arms') 0) by (simpl; f_equal; exact Hmap).
  destruct (Cond_conds _ _ _ _); [|reflexivity]. simpl.
  destruct (Blck_chck defs expd body0 symt) as [[r0 symt1]|e]; [|reflexivity]. simpl.
  rewrite (Cond_elifs_bodies_unread _ _ _ _ _ _ arms arms'); [reflexivity|].
  apply (f_equal (@length _)) in Hmap. now rewrite !length_map in Hmap.
Qed.

(** C2, which the code does not meet.  The ill-typed block
    [print("a" - "b")] is rejected on its own, but accepted as the body of
    an [elif] arm; and a [Void] first arm followed by an alternative that
    returns an [int] raises a type error instead of yielding [VoidOr int]. *)
Theorem Cond_chck_elif_body_unchecked :
  Blck_chck no_defs RVoid [Prnt [str_minus_str]] SymTable.empty =
    Raise (DwislpyError "Wrong operand types for minus.") /\
  Stmt_chck no_defs RVoid elif_minus SymTable.empty = Ok (RVoid, SymTable.empty) /\
  Stmt_chck no_defs (RType IntTy)
            (Cond [(Ltrl (VBool true), [Pass])] (Some [FRtn (Some (Ltrl (VInt 1)))]))
            SymTable.empty =
    Raise (DwislpyError "The return type at else should have type None but got int").
Proof. repeat split. Qed.

(** ** The main script *)

Lemma Prgm_chck_main_unjudged p :
  Prgm_chck p =
    _ ← Prgm_chck_defs (defs p) (map_to_list (defs p));
    match main p with
    | Some main => _ ← Blck_chck (defs p) RVoid main (main_symt p); Ok tt
    | None => Ok tt
    end.
Proof.
  unfold Prgm_chck. destruct (Prgm_chck_defs _ _); [|reflexivity]. simpl.
  destruct (main p) as [m|]; [|reflexivity].
  destruct (Blck_chck _ _ _ _) as [[[|T|T] symt]|e]; reflexivity.
Qed.

(** C3, which the code does not meet.  The main block [return None] has the
    behaviour [Type None], and [Prgm::chck] completes without an error. *)
Theorem Prgm_chck_accepts_returning_script :
  Blck_chck no_defs RVoid [FRtn (Some (Ltrl VNone))] SymTable.empty =
    Ok (RType NoneTy, SymTable.empty) /\
  Prgm_chck (script [FRtn (Some (Ltrl VNone))]) = Ok tt.
Proof. repeat split. Qed.

(** ** Conditionals without an alternative *)

Lemma Cond_chck_without_else_never_Ok defs expd ifcds symt res :
  Stmt_chck defs expd (Cond ifcds None) symt <> Ok res.
Proof.
  simpl. unfold Cond_chck_with. destruct ifcds as [|[cond0 body0] arms]; [discriminate|].
  intros H. inv_bind H. inv_bind H. destruct a0. inv_bind H. destruct a0. discriminate.
Qed.

(** C4, which the code does not meet.  On [if True: pass], built without an
    alternative, [Cond::chck] dereferences the null [els]; [Cond::exec]
    tests [els] and runs the same statement to its end. *)
Theorem Cond_chck_without_else_faults :
  Stmt_chck no_defs RVoid if_pass SymTable.empty = Raise NullDeref /\
  (forall run_body fuel io,
     Stmt_exec no_defs run_body fuel if_pass ∅ io = Ok (None, ∅, io)).
Proof. repeat split. Qed.

(** ** The conversion to an integer *)

Lemma IntC_chck_rule defs symt expn :
  Expn_chck defs symt (IntC expn) =
    _ ← Expn_chck defs symt expn;
    Raise (DwislpyError "Input requires a string or integer.").
Proof.
  simpl. destruct (Expn_chck defs symt expn) as [[]|e]; reflexivity.
Qed.

(** C5, which the code does not meet.  [IntC::chck] raises its type error
    for an operand of type [str] and for an operand of type [int]. *)
Theorem IntC_chck_rejects_str_and_int :
  Expn_chck no_defs SymTable.empty (IntC (Ltrl (VStr "12"))) =
    Raise (DwislpyError "Input requires a string or integer.") /\
  Expn_chck no_defs SymTable.empty (IntC (Ltrl (VInt 12))) =
    Raise (DwislpyError "Input requires a string or integer.").
Proof. repeat split. Qed.

(** ** Definitions *)

(** What [Defn::chck] makes of the behaviour of the body. *)
Lemma Defn_chck_rule defs d r symt :
  Blck_chck defs (RType (ret_type d)) (body d) (args d) = Ok (r, symt) ->
  Defn_chck defs d =
    match r with
    | RVoid => Raise (DwislpyError "Definition body never returns.")
    | RVoidOr _ => Raise (DwislpyError "Definition body might not return.")
    | RType T =>
        if decide (T = ret_type d) then Ok tt
        else Raise (DwislpyError ("Definition body returns " +:+ get_type_str T +:+
                                  " but should return " +:+ get_type_str (ret_type d)))
    end.
Proof.
  intros H. unfold Defn_chck. rewrite H. simpl. destruct r as [|T|T]; try reflexivity.
  simpl. destruct (decide (T = ret_type d)) as [->|Hne].
  - now rewrite ty_ne_refl.
  - apply ty_ne_true in Hne. now rewrite Hne.
Qed.

Lemma Defn_chck_accepts_iff defs d :
  Defn_chck defs d = Ok tt <->
  exists symt, Blck_chck defs (RType (ret_type d)) (body d) (args d) = Ok (RType (ret_type d), symt).
Proof.
  split.
  - intros H. destruct (Blck_chck defs (RType (ret_type d)) (body d) (args d))
      as [[r symt]|e] eqn:Hb.
    + rewrite (Defn_chck_rule _ _ _ _ Hb) in H. destruct r as [|T|T]; try discriminate.
      destruct (decide (T = ret_type d)) as [->|]; [eauto | discriminate].
    + unfold Defn_chck in H. rewrite Hb in H. discriminate.
  - intros [symt Hb]. rewrite (Defn_chck_rule _ _ _ _ Hb). now rewrite decide_True.
Qed.

(** C6, at the function of its example, where the code does not meet it.
    For [def g(x: int) -> int: if x > 0: return x] the check faults on the
    null alternative of the [if] instead of raising "Definition body might
    not return."; with the alternative written as [else: pass] that error
    is raised, and [f], which returns on both arms, is accepted. *)
Theorem Defn_chck_if_without_else_faults :
  Defn_chck no_defs g_defn = Raise NullDeref /\
  Defn_chck no_defs g_else_pass = Raise (DwislpyError "Definition body might not return.") /\
  Defn_chck no_defs f_defn = Ok tt.
Proof. repeat split. Qed.

(** ** The theorems at concrete programs *)

Lemma Blck_chck_sequential_merge_witness :
  Blck_chck no_defs (RType IntTy) ([Pass] ++ FRtn (Some (Ltrl (VInt 1))) :: [Pass; PRtn])%list
            SymTable.empty = Ok (RType IntTy, SymTable.empty).
Proof.
  pose proof (Blck_chck_sequential_merge no_defs (RType IntTy)) as (_ & _ & _ & _ & _ & H).
  apply (H [Pass] _ _ IntTy SymTable.empty RVoid (SymTable.mark SymTable.empty)
           (SymTable.mark SymTable.empty)); reflexivity.
Defined.

Lemma Ntro_chck_redefinition_witness :
  Blck_chck no_defs RVoid [Ntro "x" IntTy (Ltrl (VInt 1)); Ntro "x" IntTy (Ltrl (VInt 2))]
            SymTable.empty = Raise (redefinition_error "x") /\
  Blck_chck no_defs RVoid [Ntro "x" IntTy (Ltrl (VInt 2))]
            (SymTable.add_locl "x" IntTy (SymTable.mark SymTable.empty)) =
    Ok (RVoid, SymTable.add_locl "x" IntTy (SymTable.mark SymTable.empty)).
Proof.
  split.
  - apply (Ntro_chck_redefinition no_defs RVoid "x" IntTy (Ltrl (VInt 1)) SymTable.empty)
      with (t := IntTy). reflexivity.
  - apply (Ntro_chck_redefinition no_defs RVoid "x" IntTy (Ltrl (VInt 2))
             (SymTable.add_locl "x" IntTy (SymTable.mark SymTable.empty)))
      with (t := IntTy). reflexivity.
Defined.

Lemma Ntro_chck_binds_initializer_type_witness :
  exists symt',
    Stmt_chck no_defs RVoid (Ntro "x" IntTy (Ltrl (VStr "a"))) SymTable.empty = Ok (RVoid, symt') /\
    SymTable.get_info "x" symt' = Some (mkSymInfo "x" StrTy) /\
    forall symt'', later_scope "x" symt' symt'' ->
                   Expn_chck no_defs symt'' (Lkup "x") = Ok StrTy.
Proof.
  apply (Ntro_chck_binds_initializer_type no_defs RVoid "x" IntTy (Ltrl (VStr "a"))
           SymTable.empty); reflexivity.
Defined.

(** A declaration in the body of an [if] may shadow an outer one; the
    conditional itself needs its alternative to be checked at all. *)
Example shadow_in_if_accepted :
  Blck_chck no_defs RVoid (shadow_in_if (Some [Pass])) SymTable.empty =
    Ok (RVoid, SymTable.empty) /\
  Blck_chck no_defs RVoid (shadow_in_if None) SymTable.empty = Raise NullDeref.
Proof. split; reflexivity. Qed.

(** A name annotated [int] and initialized with a string is a string for
    the statements that follow. *)
Example annotated_int_is_str :
  Blck_chck no_defs RVoid (annotated_int_holds_str (Ltrl (VStr "b"))) SymTable.empty =
    Ok (RVoid, SymTable.empty) /\
  Blck_chck no_defs RVoid (annotated_int_holds_str (Ltrl (VInt 1))) SymTable.empty =
    Raise (DwislpyError "Type mismatch. Expected expression of type str.").
Proof. split; reflexivity. Qed.

(** A first arm that falls through makes a returning alternative a type
    error, also inside a definition. *)
Example void_arm_then_return_rejected :
  Defn_chck no_defs h_defn =
    Raise (DwislpyError "The return type at else should have type None but got int").
Proof. reflexivity. Qed.

(** * Further properties of the checker and of the interpreter *)

(** ** Scopes *)

(** A block that checks leaves the symbol table as it found it: the mark
    taken on entry is popped on exit, whatever the block declared. *)
Theorem Blck_chck_restores_table (defs : Defs) (expd : Rtns) (stmts : Blck)
    (symt symt' : SymT) (r : Rtns) :
  Blck_chck defs expd stmts symt = Ok (r, symt') -> symt' = symt.
Proof. intros H. now apply Blck_chck_restores in H. Qed.

(** Of all the statements only a declaration changes the table, and it adds
    its name, with the type of the initializer, to the current frame; every
    statement leaves the enclosing frames and the formals alone. *)
Theorem Stmt_chck_table (defs : Defs) (expd : Rtns) (s : Stmt) (symt symt' : SymT)
    (r : Rtns) :
  Stmt_chck defs expd s symt = Ok (r, symt') ->
  (is_Ntro s = false -> symt' = symt) /\
  (forall name type expn, s = Ntro name type expn ->
     exists t, Expn_chck defs symt expn = Ok t /\ symt' = SymTable.add_locl name t symt) /\
  SymTable.pop_until_mark symt' = SymTable.pop_until_mark symt /\
  frmls symt' = frmls symt.
Proof.
  intros H. split; [|split].
  - intros Hn.
    destruct s as [| | | |ifcds els| | | |cond blk|cond blk|expn| | | | |];
      try discriminate Hn; simpl in H.
    + unfold Asgn_chck in H. destruct (negb _); [discriminate|].
      destruct (SymTable.get_info _ _); [|discriminate]. inv_bind H.
      destruct (ty_ne _ _); [discriminate|]. now inversion H.
    + unfold Pleq_chck in H. destruct (negb _); [discriminate|].
      destruct (SymTable.get_info _ _); [|discriminate]. inv_bind H.
      destruct (_ && _); [now inversion H|]. destruct (_ && _); [now inversion H|discriminate].
    + unfold Mneq_chck in H. destruct (negb _); [discriminate|].
      destruct (SymTable.get_info _ _); [|discriminate]. inv_bind H.
      destruct (_ && _); [now inversion H|discriminate].
    + change (Cond_chck defs expd ifcds els symt = Ok (r, symt')) in H.
      apply Cond_chck_sound in H as [_ ->]; [reflexivity| |].
      * apply Forall_forall. intros ? _ ? ? ? ?. apply Blck_chck_restores.
      * destruct els; [|exact I]. intros ? ? ? ?. apply Blck_chck_restores.
    + discriminate.
    + discriminate.
    + discriminate.
    + change (Whil_chck defs expd cond blk symt = Ok (r, symt')) in H.
      apply Whil_chck_sound in H as [_ ->]; [reflexivity|].
      intros ? ? ? ?. apply Blck_chck_restores.
    + change (Rept_chck defs expd cond blk symt = Ok (r, symt')) in H.
      apply Rept_chck_sound in H as [_ ->]; [reflexivity|].
      intros ? ? ? ?. apply Blck_chck_restores.
    + unfold FRtn_chck in H. destruct expn; [|discriminate]. inv_bind H.
      destruct (ty_eq _ _); [now inversion H|discriminate].
    + unfold PRtn_chck in H. destruct (holds_Void _); [discriminate|].
      destruct (negb _); [discriminate|]. now inversion H.
    + inv_bind H. now inversion H.
    + now inversion H.
    + unfold PCll_chck in H. inv_bind H. now inversion H.
    + discriminate.
  - intros name type expn ->. simpl in H. unfold Ntro_chck in H.
    destruct (SymTable.is_redefining _ _); [discriminate|]. inv_bind H.
    inversion H; subst. eauto.
  - apply Stmt_chck_sound in H as [_ [f ->]].
    destruct symt as [fs o [|m ms]]; split; reflexivity.
Qed.

(** ** Definitions: the comparison of the types never fails *)

Theorem Defn_chck_accepts_always_returning (defs : Defs) (d : Defn) (T : Ty) (symt : SymT) :
  Blck_chck defs (RType (ret_type d)) (body d) (args d) = Ok (RType T, symt) ->
  T = ret_type d /\ Defn_chck defs d = Ok tt.
Proof.
  intros H. pose proof H as Hag. apply Blck_chck_restores in Hag as [[?|Hag] _]; [discriminate|].
  simpl in Hag. subst T. split; [reflexivity|].
  rewrite (Defn_chck_rule _ _ _ _ H). now rewrite decide_True.
Qed.

(** ** The table is read through its lookups *)

Lemma chck_args_ext chck chck' sep :
  forall actuals i fmls,
    Forall (fun a => chck a = chck' a) actuals ->
    chck_args_with chck sep i fmls actuals = chck_args_with chck' sep i fmls actuals.
Proof.
  induction actuals as [|a actuals IH]; intros i fmls Hall; [reflexivity|].
  inversion Hall; subst. destruct fmls as [|fm fmls]; [reflexivity|]. simpl.
  rewrite <- H1. destruct (chck a); [simpl|reflexivity].
  destruct (ty_ne _ _); [reflexivity|]. now apply IH.
Qed.

(** The expression checker reads the table through its lookups only: two
    tables that answer every lookup alike give every expression the same
    type or the same error.  Entering a scope is such a change. *)
Theorem Expn_chck_reads_lookups (defs : Defs) (symt symt' : SymT) (e : Expn) :
  (forall name, SymTable.get_info name symt = SymTable.get_info name symt') ->
  Expn_chck defs symt e = Expn_chck defs symt' e.
Proof.
  intros Hget. induction e using Expn_nested_ind; simpl;
    repeat match goal with H : Expn_chck _ _ _ = _ |- _ => rewrite H; clear H end;
    try reflexivity.
  - unfold chck_call_with. destruct (defs !! name); [|reflexivity].
    destruct (negb _); [reflexivity|]. now rewrite (chck_args_ext _ _ _ _ _ _ H).
  - unfold SymTable.has_info. now rewrite Hget.
Qed.

(** ** Calls *)

Lemma chck_args_Ok chck sep :
  forall actuals i fmls,
    length fmls = length actuals ->
    (chck_args_with chck sep i fmls actuals = Ok tt <->
     Forall2 (fun fm a => chck a = Ok (sym_type fm)) fmls actuals).
Proof.
  induction actuals as [|a actuals IH]; intros i [|fm fmls] Hlen; try discriminate.
  - split; [constructor | reflexivity].
  - simpl. injection Hlen as Hlen. split.
    + intros H. inv_bind H. destruct (ty_ne _ _) eqn:Hne; [discriminate|].
      apply ty_ne_spec in Hne. constructor; [congruence | now apply (IH (S i))].
    + intros H. inversion H as [|? ? ? ? Ha Hrest]; subst. rewrite Ha. simpl.
      rewrite ty_ne_refl. now apply IH.
Qed.

Lemma chck_call_Ok defs chck sep name actuals fn :
  chck_call_with defs chck sep name actuals = Ok fn <->
  defs !! name = Some fn /\
  Forall2 (fun fm a => chck a = Ok (sym_type fm)) (frmls (args fn)) actuals.
Proof.
  unfold chck_call_with. destruct (defs !! name) as [d|]; [|split; [discriminate | now intros [? _]]].
  unfold arity, SymTable.get_frmls_size.
  destruct (Nat.eqb_spec (length (frmls (args d))) (length actuals)) as [Hlen|Hlen]; simpl.
  - split.
    + intros H. inv_bind H. injection H as <-. destruct a. split; [reflexivity|].
      now apply (chck_args_Ok chck sep actuals 0 _ Hlen).
    + intros [[= <-] Hall]. apply (chck_args_Ok chck sep actuals 0 _ Hlen) in Hall.
      now rewrite Hall.
  - split; [discriminate|]. intros [[= <-] H]. apply Forall2_length in H. contradiction.
Qed.

(** The rule of the calls.  [FCll::chck] yields the declared return type,
    and [PCll::chck] yields [Void] and keeps the table, exactly when the
    callee is defined and the actuals have, position by position, the types
    of the formals; an unknown callee and a wrong number of actuals are
    semantic errors. *)
Theorem call_chck_rule (defs : Defs) (expd : Rtns) (symt : SymT) (name : Name)
    (actuals : list Expn) :
  (forall t, Expn_chck defs symt (FCll name actuals) = Ok t <->
     exists fn, defs !! name = Some fn /\ t = ret_type fn /\
       Forall2 (fun fm a => Expn_chck defs symt a = Ok (sym_type fm))
               (frmls (args fn)) actuals) /\
  (forall res, Stmt_chck defs expd (PCll name actuals) symt = Ok res <->
     res = (RVoid, symt) /\
     exists fn, defs !! name = Some fn /\
       Forall2 (fun fm a => Expn_chck defs symt a = Ok (sym_type fm))
               (frmls (args fn)) actuals) /\
  (defs !! name = None ->
     Expn_chck defs symt (FCll name actuals) =
       Raise (DwislpyError ("fn " +:+ name +:+ " does not exsits in the context"))) /\
  (forall fn, defs !! name = Some fn -> length (frmls (args fn)) <> length actuals ->
     exists msg, Expn_chck defs symt (FCll name actuals) = Raise (DwislpyError msg) /\
                 Stmt_chck defs expd (PCll name actuals) symt = Raise (DwislpyError msg)).
Proof.
  repeat split.
  - simpl. intros H. inv_bind H. injection H as <-. apply chck_call_Ok in Hstep as [Hfn Hall].
    exists a. auto.
  - intros (fn & Hfn & -> & Hall). simpl.
    rewrite (proj2 (chck_call_Ok defs _ _ _ _ fn) (conj Hfn Hall)). reflexivity.
  - simpl in H. unfold PCll_chck in H. inv_bind H. now injection H as <-.
  - simpl in H. unfold PCll_chck in H. inv_bind H. apply chck_call_Ok in Hstep as [Hfn Hall].
    exists a. auto.
  - intros [-> (fn & Hfn & Hall)]. simpl. unfold PCll_chck.
    rewrite (proj2 (chck_call_Ok defs _ _ _ _ fn) (conj Hfn Hall)). reflexivity.
  - intros Hn. simpl. unfold chck_call_with. rewrite Hn. reflexivity.
  - intros fn Hfn Hlen. simpl. unfold PCll_chck, chck_call_with. rewrite Hfn.
    unfold arity, SymTable.get_frmls_size.
    destruct (Nat.eqb_spec (length (frmls (args fn))) (length actuals)); [contradiction|].
    simpl. eauto.
Qed.

(** ** The errors of the checker *)

Lemma lookup_after_has_info name symt :
  SymTable.has_info name symt = true -> exists info, SymTable.get_info name symt = Some info.
Proof. apply SymTableFacts.has_info_get_info. Qed.

Lemma chck_args_semantic chck sep :
  forall actuals i fmls err,
    Forall (fun a => forall err, chck a = Raise err -> is_semantic err) actuals ->
    chck_args_with chck sep i fmls actuals = Raise err -> is_semantic err.
Proof.
  induction actuals as [|arg actuals IH]; intros i fmls err Hall H; [discriminate|].
  inversion Hall as [|? ? Harg Hrest]; subst.
  destruct fmls as [|fm fmls]; [discriminate|]. simpl in H.
  apply bind_Raise_inv in H as [H | (t & _ & H)]; [now apply Harg|].
  destruct (ty_ne _ _); [injection H as <-; exact I | eapply IH; eassumption].
Qed.

Lemma chck_call_semantic defs chck sep name actuals err :
  Forall (fun a => forall err, chck a = Raise err -> is_semantic err) actuals ->
  chck_call_with defs chck sep name actuals = Raise err -> is_semantic err.
Proof.
  intros Hall H. unfold chck_call_with in H.
  destruct (defs !! name); [|injection H as <-; exact I].
  destruct (negb _); [injection H as <-; exact I|].
  apply bind_Raise_inv in H as [H | (? & _ & H)]; [|discriminate].
  eapply chck_args_semantic; eassumption.
Qed.

Lemma Expn_chck_semantic defs symt e :
  forall err, Expn_chck defs symt e = Raise err -> is_semantic err.
Proof.
  induction e using Expn_nested_ind; intros err Herr; simpl in Herr;
    unfold chck_int_int, chck_bool_bool in *;
    repeat match goal with
      | H : _ ≫= _ = Raise _ |- _ =>
          apply bind_Raise_inv in H as [H | (? & _ & H)]; [now eauto|]
      | H : (if SymTable.has_info ?n ?s then _ else _) = Raise _ |- _ =>
          let Hhas := fresh "Hhas" in
          destruct (SymTable.has_info n s) eqn:Hhas;
          [apply lookup_after_has_info in Hhas as [? Hhas]; rewrite Hhas in H|]
      | H : (if ?c then _ else _) = Raise _ |- _ => destruct c
      | H : Ok _ = Raise _ |- _ => discriminate H
      | H : Raise (DwislpyError _) = Raise _ |- _ => injection H as <-; exact I
      end.
  2: { destruct valu; discriminate. }
  apply bind_Raise_inv in Herr as [Herr | (? & _ & Herr)]; [|discriminate].
  eapply chck_call_semantic; eassumption.
Qed.

Lemma Forall_forallb_sem defs (b : list Stmt) :
  Forall (fun s => all_els s = true ->
            forall expd symt err, Stmt_chck defs expd s symt = Raise err -> is_semantic err) b ->
  forallb all_els b = true ->
  forall expd symt err, Blck_chck defs expd b symt = Raise err -> is_semantic err.
Proof.
  intros Hall Hels expd symt err H. unfold Blck_chck, Blck_chck_with in H.
  apply bind_Raise_inv in H as [H | ([r symt1] & Hloop & H)].
  - revert Hels H. generalize RVoid as acc. generalize (SymTable.mark symt) as s0.
    induction Hall as [|stmt rest Hstmt _ IH]; intros s0 acc Hels H; [discriminate|].
    simpl in Hels. apply andb_prop in Hels as [Hs Hrest]. simpl in H.
    apply bind_Raise_inv in H as [H | ([stmt_rtns s1] & _ & H)]; [eapply Hstmt; eassumption|].
    simpl in H.
    repeat match type of H with
      | (if ?c then _ else _) = Raise _ => destruct c
      | Raise (DwislpyError _) = Raise _ => injection H as <-; exact I
      | Ok _ = Raise _ => discriminate H
      end; eapply IH; eassumption.
  - fold (Blck_loop defs) in Hloop. apply (Blck_loop_sound defs expd b) in Hloop as [_ Hsc].
    + now rewrite (same_scopes_pop_mark _ _ Hsc) in H.
    + apply Forall_forall. intros ? _. apply Stmt_chck_sound.
    + left; reflexivity.
Qed.

Lemma Cond_conds_semantic defs symt :
  forall ifcds i err, Cond_conds defs symt i ifcds = Raise err -> is_semantic err.
Proof.
  induction ifcds as [|[c b] ifcds IH]; intros i err H; [discriminate|]. simpl in H.
  apply bind_Raise_inv in H as [H | (t & _ & H)]; [now apply Expn_chck_semantic in H|].
  destruct (ty_ne _ _); [injection H as <-; exact I | eapply IH; eassumption].
Qed.

Lemma Cond_arm_semantic at_ return_pt return_tp rt_is_void rt_has_void body_rt err :
  Cond_arm at_ return_pt return_tp rt_is_void rt_has_void body_rt = Raise err ->
  is_semantic err.
Proof.
  unfold Cond_arm. intros H.
  repeat match type of H with
    | (if ?c then _ else _) = Raise _ => destruct c
    | Raise (DwislpyError _) = Raise _ => injection H as <-; exact I
    | Ok _ = Raise _ => discriminate H
    end.
Qed.

Lemma Prnt_loop_semantic defs symt :
  forall expns err, Prnt_loop defs symt expns = Raise err -> is_semantic err.
Proof.
  induction expns as [|e expns IH]; intros err H; [discriminate|]. simpl in H.
  apply bind_Raise_inv in H as [H | (? & _ & H)]; [now apply Expn_chck_semantic in H|].
  now apply IH.
Qed.

Lemma Forall_Expn_semantic defs symt (l : list Expn) :
  Forall (fun a => forall err, Expn_chck defs symt a = Raise err -> is_semantic err) l.
Proof. apply Forall_forall. intros ? _ ?. apply Expn_chck_semantic. Qed.

Ltac semantic_steps H :=
  repeat match type of H with
    | _ ≫= _ = Raise _ =>
        apply bind_Raise_inv in H as [H | (? & _ & H)];
        [first [ now apply Expn_chck_semantic in H
               | now apply Prnt_loop_semantic in H
               | now apply Cond_conds_semantic in H
               | now apply Cond_arm_semantic in H
               | now apply (chck_call_semantic _ _ _ _ _ _ (Forall_Expn_semantic _ _ _)) in H ]|]
    | (if negb (SymTable.has_info ?n ?s) then _ else _) = Raise _ =>
        let Hhas := fresh "Hhas" in
        destruct (SymTable.has_info n s) eqn:Hhas; simpl in H;
        [apply lookup_after_has_info in Hhas as [? Hhas]; rewrite Hhas in H|]
    | (if ?c then _ else _) = Raise _ => destruct c
    | (let '(_, _) := ?p in _) = Raise _ => destruct p
    | Raise (DwislpyError _) = Raise _ => injection H as <-; exact I
    | Ok _ = Raise _ => discriminate H
    end.

Lemma Stmt_chck_semantic (defs : Defs) (s : Stmt) :
  all_els s = true ->
  forall expd symt err, Stmt_chck defs expd s symt = Raise err -> is_semantic err.
Proof.
  induction s as [| | | |ifcds els IHarms IHels|? ? _|? _|? ? _|cond body IHbody|cond body IHbody
                 |expn| | | | |] using Stmt_nested_ind;
    intros Hels expd symt err Herr; simpl in Herr, Hels.
  - unfold Asgn_chck in Herr. semantic_steps Herr.
  - unfold Ntro_chck in Herr. semantic_steps Herr.
  - unfold Pleq_chck in Herr. semantic_steps Herr.
  - unfold Mneq_chck in Herr. semantic_steps Herr.
  - (* Cond *)
    apply andb_prop in Hels as [Harms Helse]. unfold Cond_chck_with in Herr.
    destruct ifcds as [|[cond0 body0] arms]; [injection Herr as <-; exact I|].
    inversion IHarms as [|? ? Hbody0 _]; subst. simpl in Hbody0, Harms.
    apply andb_prop in Harms as [Hels0 _].
    pose proof (Forall_forallb_sem defs body0 Hbody0 Hels0) as Hb0.
    apply bind_Raise_inv in Herr as [Herr | (? & _ & Herr)];
      [now apply Cond_conds_semantic in Herr|].
    apply bind_Raise_inv in Herr as [Herr | ([r0 symt1] & _ & Herr)]; [now apply Hb0 in Herr|].
    simpl in Herr. apply bind_Raise_inv in Herr as [Herr | ([return_pt symt2] & _ & Herr)].
    + clear -Herr Hb0. revert Herr. generalize 1 as i. generalize r0 at 4 as rp.
      generalize symt1 as s1.
      induction arms as [|arm arms IH]; intros s1 rp i H; [discriminate|]. simpl in H.
      apply bind_Raise_inv in H as [H | ([body_rt s2] & _ & H)]; [now apply Hb0 in H|].
      apply bind_Raise_inv in H as [H | (? & _ & H)]; [now apply Cond_arm_semantic in H|].
      eapply IH; eassumption.
    + destruct els as [els_body|]; [|discriminate]. simpl in IHels.
      apply bind_Raise_inv in Herr as [Herr | ([body_rt symt3] & _ & Herr)];
        [now apply (Forall_forallb_sem defs els_body IHels Helse) in Herr|].
      semantic_steps Herr.
  - injection Herr as <-; exact I.
  - injection Herr as <-; exact I.
  - injection Herr as <-; exact I.
  - unfold Whil_chck_with in Herr.
    pose proof (Forall_forallb_sem defs body IHbody Hels) as Hb.
    apply bind_Raise_inv in Herr as [Herr | (? & _ & Herr)];
      [now apply Expn_chck_semantic in Herr|].
    destruct (ty_ne _ _); [injection Herr as <-; exact I|].
    apply bind_Raise_inv in Herr as [Herr | ([? ?] & _ & Herr)]; [now apply Hb in Herr|].
    semantic_steps Herr.
  - unfold Rept_chck_with in Herr.
    pose proof (Forall_forallb_sem defs body IHbody Hels) as Hb.
    apply bind_Raise_inv in Herr as [Herr | (? & _ & Herr)];
      [now apply Expn_chck_semantic in Herr|].
    destruct (ty_ne _ _); [injection Herr as <-; exact I|].
    apply bind_Raise_inv in Herr as [Herr | ([? ?] & _ & Herr)]; [now apply Hb in Herr|].
    semantic_steps Herr.
  - unfold FRtn_chck in Herr. destruct expn; semantic_steps Herr.
  - unfold PRtn_chck in Herr. semantic_steps Herr.
  - semantic_steps Herr.
  - discriminate.
  - unfold PCll_chck in Herr. semantic_steps Herr.
  - injection Herr as <-; exact I.
Qed.

Lemma Blck_chck_semantic defs (b : Blck) :
  forallb all_els b = true ->
  forall expd symt err, Blck_chck defs expd b symt = Raise err -> is_semantic err.
Proof.
  apply Forall_forallb_sem. apply Forall_forall. intros s _. apply Stmt_chck_semantic.
Qed.

(** What the checker never does: on statements whose conditionals all have
    their alternative, a check that fails raises a [DwislpyError], never a
    fault of the table or of a null pointer. *)
Theorem chck_only_semantic_errors (defs : Defs) :
  (forall s expd symt err,
     all_els s = true -> Stmt_chck defs expd s symt = Raise err -> is_semantic err) /\
  (forall b expd symt err,
     forallb all_els b = true -> Blck_chck defs expd b symt = Raise err -> is_semantic err) /\
  (forall d err,
     forallb all_els (body d) = true -> Defn_chck defs d = Raise err -> is_semantic err).
Proof.
  repeat split.
  - intros. eapply Stmt_chck_semantic; eassumption.
  - intros. eapply Blck_chck_semantic; eassumption.
  - intros d err Hels H. unfold Defn_chck in H.
    apply bind_Raise_inv in H as [H | ([r ?] & _ & H)];
      [eapply Blck_chck_semantic; eassumption|].
    semantic_steps H.
Qed.

(** ** Conditionals *)

Lemma Cond_arm_self at_ r0 :
  Cond_arm at_ r0 (type_of r0) (holds_Void r0) (has_void r0) r0 = Ok r0.
Proof. destruct r0 as [|T|T]; unfold Cond_arm; simpl; now rewrite ?ty_ne_refl. Qed.

Lemma Cond_elifs_noop defs expd body0 r0 symt :
  Blck_chck defs expd body0 symt = Ok (r0, symt) ->
  forall arms i,
    Cond_elifs (Blck_chck defs) expd body0 (type_of r0) (holds_Void r0) (has_void r0)
               i arms r0 symt = Ok (r0, symt).
Proof.
  intros Hb0. induction arms as [|arm arms IH]; intros i; [reflexivity|].
  simpl. rewrite Hb0. simpl. rewrite Cond_arm_self. simpl. apply IH.
Qed.

Lemma Cond_conds_app defs symt :
  forall l1 l2 i,
    Cond_conds defs symt i (l1 ++ l2) =
      _ ← Cond_conds defs symt i l1; Cond_conds defs symt (i + length l1) l2.
Proof.
  induction l1 as [|[c b] l1 IH]; intros l2 i; simpl.
  - now rewrite Nat.add_0_r.
  - destruct (Expn_chck defs symt c); [simpl|reflexivity].
    destruct (ty_ne _ _); [reflexivity|]. rewrite IH. now rewrite Nat.add_succ_r.
Qed.

(** As the loop over the [elif] arms checks the body of the first arm again,
    in the restored table, it finds the behaviour it started from: when
    their conditions are [bool], the [elif] arms do not change the outcome
    of the check. *)
Theorem Cond_chck_elif_arms_inert (defs : Defs) (expd : Rtns) (cond0 : Expn)
    (body0 : Blck) (arms : list (Expn * Blck)) (els : option Blck) (symt : SymT) :
  Cond_conds defs symt 1 arms = Ok tt ->
  Stmt_chck defs expd (Cond ((cond0, body0) :: arms) els) symt =
  Stmt_chck defs expd (Cond [(cond0, body0)] els) symt.
Proof.
  intros Hconds. cbn [Stmt_chck]. unfold Cond_chck_with. fold (Blck_chck defs).
  change ((cond0, body0) :: arms) with ([(cond0, body0)] ++ arms)%list.
  rewrite Cond_conds_app.
  destruct (Cond_conds defs symt 0 [(cond0, body0)]) as [[]|e]; [|reflexivity].
  simpl length. simpl Nat.add. rewrite Hconds. simpl.
  destruct (Blck_chck defs expd body0 symt) as [[r0 symt1]|e] eqn:Hb0; [|reflexivity]. simpl.
  pose proof Hb0 as Hr. apply Blck_chck_restores in Hr as [_ ->].
  rewrite (Cond_elifs_noop defs expd body0 r0 symt Hb0). reflexivity.
Qed.

(** A conditional with an alternative always returns [T] exactly when all
    its conditions are [bool] and both its first arm and its alternative
    always return [T]. *)
Theorem Cond_chck_always_returns_iff (defs : Defs) (expd : Rtns) (cond0 : Expn)
    (body0 : Blck) (arms : list (Expn * Blck)) (els_body : Blck) (symt symt' : SymT)
    (T : Ty) :
  Stmt_chck defs expd (Cond ((cond0, body0) :: arms) (Some els_body)) symt =
    Ok (RType T, symt') <->
  Cond_conds defs symt 0 ((cond0, body0) :: arms) = Ok tt /\
  Blck_chck defs expd body0 symt = Ok (RType T, symt) /\
  Blck_chck defs expd els_body symt = Ok (RType T, symt) /\
  symt' = symt.
Proof.
  cbn [Stmt_chck]. unfold Cond_chck_with. fold (Blck_chck defs). split.
  - intros H. inv_bind H. destruct a. split; [assumption|].
    inv_bind H. destruct a as [r0 symt1].
    pose proof Hstep0 as Hr. apply Blck_chck_restores in Hr as [_ ->].
    rewrite (Cond_elifs_noop defs expd body0 r0 symt Hstep0) in H. simpl in H.
    inv_bind H. destruct a as [r1 symt2].
    pose proof Hstep1 as Hr. apply Blck_chck_restores in Hr as [_ ->].
    inv_bind H. injection H as -> <-.
    unfold Cond_arm in Hstep2.
    destruct r0 as [|T0|T0], r1 as [|T1|T1]; simpl in Hstep2;
      repeat match type of Hstep2 with
        | (if ?c then _ else _) = _ => destruct c eqn:?
        end; try discriminate.
    injection Hstep2 as ->. match goal with Hne : ty_ne _ _ = false |- _ =>
      apply ty_ne_spec in Hne; subst end. auto.
  - intros (Hc & Hb0 & Hb1 & ->). rewrite Hc. simpl. rewrite Hb0. simpl.
    rewrite (Cond_elifs_noop defs expd body0 (RType T) symt Hb0). simpl.
    rewrite Hb1. simpl. unfold Cond_arm. simpl. now rewrite ty_ne_refl.
Qed.

(** ** Programs *)

Lemma Prgm_chck_defs_Ok defs (l : list (Name * Defn)) :
  Prgm_chck_defs defs l = Ok tt <-> Forall (fun dfpr => Defn_chck defs (snd dfpr) = Ok tt) l.
Proof.
  induction l as [|dfpr l IH]; simpl.
  - split; [constructor | reflexivity].
  - split.
    + intros H. inv_bind H. destruct a. constructor; [assumption | now apply IH].
    + intros H. inversion H as [|? ? Hd Hl]; subst. rewrite Hd. simpl. now apply IH.
Qed.

(** [Prgm::chck] accepts a program exactly when every definition of the map
    checks and the main block, if there is one, checks: the order in which
    the map is visited does not matter for acceptance. *)
Theorem Prgm_chck_accepts_iff (p : Prgm) :
  Prgm_chck p = Ok tt <->
  (forall name d, defs p !! name = Some d -> Defn_chck (defs p) d = Ok tt) /\
  (forall m, main p = Some m -> is_Ok (Blck_chck (defs p) RVoid m (main_symt p)) = true).
Proof.
  rewrite Prgm_chck_main_unjudged. split.
  - intros H. inv_bind H. destruct a. apply Prgm_chck_defs_Ok in Hstep. split.
    + intros name d Hd. rewrite Forall_forall in Hstep.
      apply (Hstep (name, d)). now apply elem_of_map_to_list.
    + intros m Hm. rewrite Hm in H. now destruct (Blck_chck _ _ _ _).
  - intros [Hdefs Hmain].
    assert (Prgm_chck_defs (defs p) (map_to_list (defs p)) = Ok tt) as ->.
    { apply Prgm_chck_defs_Ok, Forall_forall. intros [name d] Hin.
      apply elem_of_map_to_list in Hin. now apply (Hdefs name). }
    simpl. destruct (main p) as [m|]; [|reflexivity].
    specialize (Hmain m eq_refl). now destruct (Blck_chck _ _ _ _).
Qed.

Lemma yields_bind t (m : Res (Valu * IO)) (k : Valu * IO -> Res (Valu * IO)) t' :
  yields t m -> (forall v io, tag_of v = t -> yields t' (k (v, io))) -> yields t' (m ≫= k).
Proof. destruct m as [[v io]|e]; simpl; auto. Qed.



(** ** Loops *)

Lemma Whil_loop_no_value defs run_body cond exec_body :
  forall fuel ctxt io rv ctxt' io',
    Whil_loop defs run_body cond exec_body fuel ctxt io = Ok (rv, ctxt', io') ->
    rv = None /\ exists io0, Expn_eval defs run_body ctxt' cond io0 = Ok (VBool false, io').
Proof.
  induction fuel as [|fuel IH]; intros ctxt io rv ctxt' io' H; [discriminate|].
  simpl in H. inv_bind H. destruct a as [c io1]. inv_bind H. destruct c; try discriminate.
  injection Hstep0 as <-. destruct b.
  - inv_bind H. destruct a as [[? ctxt1] io2]. eapply IH; eassumption.
  - injection H as <- <- <-. eauto.
Qed.

Lemma Rept_loop_no_value defs run_body cond exec_body :
  forall fuel ctxt io rv ctxt' io',
    Rept_loop defs run_body cond exec_body fuel ctxt io = Ok (rv, ctxt', io') ->
    rv = None /\ exists io0, Expn_eval defs run_body ctxt' cond io0 = Ok (VBool true, io').
Proof.
  induction fuel as [|fuel IH]; intros ctxt io rv ctxt' io' H; [discriminate|].
  simpl in H. inv_bind H. destruct a as [[? ctxt1] io1]. inv_bind H. destruct a as [c io2].
  inv_bind H. destruct c; try discriminate. injection Hstep1 as <-. destruct b; simpl in H.
  - injection H as <- <- <-. eauto.
  - eapply IH; eassumption.
Qed.

(** [Whil::exec] and [Rept::exec] drop what their body returns: a loop that
    ends never hands a value to the enclosing block, and it ends on a
    condition that is false (while) or true (repeat). *)
Theorem loops_exec_drop_returns (defs : Defs)
    (run_body : Defn -> Ctxt -> IO -> Res (Valu * IO)) (fuel : nat) (cond : Expn)
    (body : Blck) (ctxt ctxt' : Ctxt) (io io' : IO) (rv : option Valu) :
  (Stmt_exec defs run_body fuel (Whil cond body) ctxt io = Ok (rv, ctxt', io') ->
     rv = None /\
     exists io0, Expn_eval defs run_body ctxt' cond io0 = Ok (VBool false, io')) /\
  (Stmt_exec defs run_body fuel (Rept cond body) ctxt io = Ok (rv, ctxt', io') ->
     rv = None /\
     exists io0, Expn_eval defs run_body ctxt' cond io0 = Ok (VBool true, io')).
Proof.
  split; simpl; [apply Whil_loop_no_value | apply Rept_loop_no_value].
Qed.

(** ** Blocks *)

Lemma Blck_exec_app defs run_body fuel :
  forall pre post ctxt io ctxt1 io1,
    Blck_exec defs run_body fuel pre ctxt io = Ok (None, ctxt1, io1) ->
    Blck_exec defs run_body fuel (pre ++ post)%list ctxt io =
      Blck_exec defs run_body fuel post ctxt1 io1.
Proof.
  unfold Blck_exec. induction pre as [|s pre IH]; intros post ctxt io ctxt1 io1 H.
  - injection H as <- <-. reflexivity.
  - simpl in *. destruct (Stmt_exec defs run_body fuel s ctxt io) as [[[rv c] i]|e];
      [|discriminate]. simpl in *. destruct rv; [discriminate|]. now apply IH.
Qed.

(** [Blck::exec] stops at the first statement that returns a value: the
    statements after it are not run. *)
Theorem Blck_exec_stops_at_return (defs : Defs)
    (run_body : Defn -> Ctxt -> IO -> Res (Valu * IO)) (fuel : nat)
    (pre post : Blck) (s : Stmt) (ctxt ctxt1 ctxt2 : Ctxt) (io io1 io2 : IO) (v : Valu) :
  Blck_exec defs run_body fuel pre ctxt io = Ok (None, ctxt1, io1) ->
  Stmt_exec defs run_body fuel s ctxt1 io1 = Ok (Some v, ctxt2, io2) ->
  Blck_exec defs run_body fuel (pre ++ s :: post)%list ctxt io = Ok (Some v, ctxt2, io2).
Proof.
  intros Hpre Hs. rewrite (Blck_exec_app _ _ _ _ _ _ _ _ _ Hpre).
  unfold Blck_exec. simpl. rewrite Hs. reflexivity.
Qed.

(** ** Calls at run time *)

Lemma Defn_bind_keeps eval ctxt :
  forall vec fmls new io new' io',
    Defn_bind_with eval ctxt fmls vec new io = Ok (new', io') ->
    forall x, x ∉ map sym_name fmls -> new' !! x = new !! x.
Proof.
  induction vec as [|v vec IH]; intros fmls new io new' io' H x Hx.
  - injection H as <- <-. reflexivity.
  - destruct fmls as [|fm fmls]; [injection H as <- <-; reflexivity|].
    simpl in H. inv_bind H. destruct a as [val io1].
    simpl in Hx. apply not_elem_of_cons in Hx as [Hne Hx].
    rewrite (IH _ _ _ _ _ H x Hx). now apply lookup_insert_ne.
Qed.

(** [Defn::exec] refuses a wrong number of actuals with a [logic_error], and
    runs the body in a copy of the caller's context in which only the names
    of the formals may differ: the callee sees the caller's variables. *)
Theorem Defn_exec_context (defs : Defs) (run_body : Defn -> Ctxt -> IO -> Res (Valu * IO))
    (d : Defn) (ctxt : Ctxt) (vec : list Expn) (io : IO) :
  (length (frmls (args d)) <> length vec ->
     Defn_exec defs run_body d ctxt vec io = Raise (logic_error "Wrong number of arguments")) /\
  (forall res, Defn_exec defs run_body d ctxt vec io = Ok res ->
     exists new_ctxt io1,
       run_body d new_ctxt io1 = Ok res /\
       forall x, x ∉ map sym_name (frmls (args d)) -> new_ctxt !! x = ctxt !! x).
Proof.
  unfold Defn_exec, Defn_exec_with, SymTable.get_frmls_size. split.
  - intros Hlen. destruct (Nat.eqb_spec (length (frmls (args d))) (length vec));
      [contradiction | reflexivity].
  - intros res H. destruct (negb _); [discriminate|]. inv_bind H.
    destruct a as [new_ctxt io1]. exists new_ctxt, io1. split; [assumption|].
    eapply Defn_bind_keeps; eassumption.
Qed.

Lemma read_digits_string_of_uint d :
  forall acc, d <> Decimal.Nil ->
    read_digits (NilEmpty.string_of_uint d) acc = Some (digits_val d (default 0%Z acc)).
Proof.
  induction d; intros acc Hd; [contradiction|..];
    cbn [NilEmpty.string_of_uint read_digits digits_val];
    match goal with
    | |- context [digit_of ?c] =>
        let v := eval vm_compute in (digit_of c) in change (digit_of c) with v
    end; cbv iota beta;
    (assert (d = Decimal.Nil \/ d <> Decimal.Nil) as [-> | Hne]
       by (destruct d; auto; right; discriminate);
     [reflexivity | now rewrite IHd]).
Qed.

Lemma digits_val_pos d : forall p, digits_val d (Zpos p) = Zpos (Pos.of_uint_acc d p).
Proof.
  induction d; intros p; cbn [digits_val Pos.of_uint_acc]; [reflexivity|..];
    match goal with
    | |- digits_val _ ?a = Zpos (Pos.of_uint_acc _ ?q) =>
        replace a with (Zpos q) by lia; apply IHd
    end.
Qed.

Lemma digits_val_0 d : digits_val d 0 = Z.of_N (Pos.of_uint d).
Proof.
  induction d; cbn [digits_val Pos.of_uint]; [reflexivity | exact IHd | ..];
    apply digits_val_pos.
Qed.

Lemma stoi_unsigned d :
  d <> Decimal.Nil ->
  stoi (NilEmpty.string_of_uint d) =
    match read_digits (NilEmpty.string_of_uint d) None with
    | None => Ok None
    | Some n =>
        if ((- 2 ^ 31 <=? n) && (n <? 2 ^ 31))%Z then Ok (Some n) else Raise out_of_range
    end.
Proof. intros Hd. destruct d; [contradiction|..]; reflexivity. Qed.

Lemma stoi_negative d :
  d <> Decimal.Nil ->
  stoi (String (Ascii.ascii_of_nat 45) (NilEmpty.string_of_uint d)) =
    match read_digits (NilEmpty.string_of_uint d) None with
    | None => Ok None
    | Some n =>
        if ((- 2 ^ 31 <=? - n) && (- n <? 2 ^ 31))%Z then Ok (Some (- n)%Z)
        else Raise out_of_range
    end.
Proof. intros Hd. reflexivity. Qed.

Theorem stoi_to_string_int (n : Z) :
  in_int_range n -> stoi (to_string_int n) = Ok (Some n).
Proof.
  unfold in_int_range, to_string_int. intros Hn. destruct n as [|p|p]; [reflexivity|..].
  - cbn [Z.to_int NilZero.string_of_int].
    pose proof (DecimalPos.Unsigned.to_uint_nonnil p) as Hd.
    assert (NilZero.string_of_uint (Pos.to_uint p) = NilEmpty.string_of_uint (Pos.to_uint p))
      as -> by (destruct (Pos.to_uint p); [contradiction | reflexivity..]).
    rewrite (stoi_unsigned _ Hd), (read_digits_string_of_uint _ None Hd). cbn [default].
    rewrite digits_val_0, DecimalPos.Unsigned.of_to. cbn [Z.of_N].
    destruct (Z.leb_spec (- 2 ^ 31) (Z.pos p)); [|lia].
    destruct (Z.ltb_spec (Z.pos p) (2 ^ 31)); [reflexivity | lia].
  - cbn [Z.to_int NilZero.string_of_int].
    pose proof (DecimalPos.Unsigned.to_uint_nonnil p) as Hd.
    assert (NilZero.string_of_uint (Pos.to_uint p) = NilEmpty.string_of_uint (Pos.to_uint p))
      as -> by (destruct (Pos.to_uint p); [contradiction | reflexivity..]).
    etransitivity; [exact (stoi_negative _ Hd)|].
    rewrite (read_digits_string_of_uint _ None Hd). cbn [default].
    rewrite digits_val_0, DecimalPos.Unsigned.of_to. cbn [Z.of_N].
    change (- Z.pos p)%Z with (Z.neg p).
    destruct (Z.leb_spec (- 2 ^ 31) (Z.neg p)); [|lia].
    destruct (Z.ltb_spec (Z.neg p) (2 ^ 31)); [reflexivity | lia].
Qed.

(** [int(str(e))] gives back the integer that [e] evaluates to:
    [IntC::eval] reads what [to_string] wrote. *)
Theorem IntC_StrC_eval (defs : Defs) (run_body : Defn -> Ctxt -> IO -> Res (Valu * IO))
    (ctxt : Ctxt) (e : Expn) (io io' : IO) (n : Z) :
  in_int_range n ->
  Expn_eval defs run_body ctxt e io = Ok (VInt n, io') ->
  Expn_eval defs run_body ctxt (IntC (StrC e)) io = Ok (VInt n, io').
Proof.
  intros Hn He. cbn [Expn_eval]. rewrite He. cbn [mbind Res_bind]. simpl to_string.
  rewrite (stoi_to_string_int n Hn). reflexivity.
Qed.

(** An expression without [input] and without a call leaves the console as
    it is. *)
Theorem quiet_Expn_eval_keeps_console (defs : Defs)
    (run_body : Defn -> Ctxt -> IO -> Res (Valu * IO)) (ctxt : Ctxt) (e : Expn) :
  is_quiet e = true ->
  forall io v io', Expn_eval defs run_body ctxt e io = Ok (v, io') -> io' = io.
Proof.
  induction e using Expn_nested_ind; intros Hq io v io' Hev; simpl in Hq; try discriminate Hq;
    repeat match goal with
      | Hq : _ && _ = true |- _ => apply andb_prop in Hq as [? ?]
      end;
    simpl in Hev;
    repeat match goal with
      | H : _ ≫= _ = Ok _ |- _ => inv_bind H
      | H : (let '(_, _) := ?p in _) = Ok _ |- _ => destruct p
      | H : match ?x with _ => _ end = Ok _ |- _ => destruct x eqn:?; try discriminate H
      | H : Ok _ = Ok _ |- _ => injection H as <- <-
      | IH : is_quiet ?e = true -> _, Hq : is_quiet ?e = true,
        He : Expn_eval _ _ _ ?e _ = Ok _ |- _ =>
          apply (IH Hq) in He; subst
      end; try reflexivity; try congruence.
Qed.

(** ** Repetition of a string *)




(** ** Compound assignment to a name the context lacks *)

(** [+=] and [-=] on a name the context lacks: [ctxt[name]] inserts the
    integer 0 first, so the operand is evaluated with the name bound to 0
    and the name ends as [0 + m], respectively [0 - m]. *)
Theorem compound_assignment_to_missing_name (defs : Defs)
    (run_body : Defn -> Ctxt -> IO -> Res (Valu * IO)) (fuel : nat)
    (name : Name) (expn : Expn) (ctxt : Ctxt) (io io' : IO) (m : Z) :
  ctxt !! name = None ->
  Expn_eval defs run_body (<[name := VInt 0]> ctxt) expn io = Ok (VInt m, io') ->
  Stmt_exec defs run_body fuel (Pleq name expn) ctxt io =
    Ok (None, <[name := VInt (int_wrap m)]> ctxt, io') /\
  Stmt_exec defs run_body fuel (Mneq name expn) ctxt io =
    Ok (None, <[name := VInt (int_wrap (- m))]> ctxt, io').
Proof.
  intros Hmiss He. cbn [Stmt_exec]. unfold Pleq_exec, Mneq_exec, ctxt_at.
  rewrite Hmiss. cbv iota beta. rewrite He. cbn [mbind Res_bind get_int].
  unfold Ctxt, Name in *. rewrite !insert_insert_eq. split; reflexivity.
Qed.

Lemma Blck_chck_return_free defs (b : list Stmt) :
  Forall (fun s => return_free s = true ->
            forall expd symt r symt', Stmt_chck defs expd s symt = Ok (r, symt') -> r = RVoid) b ->
  forallb return_free b = true ->
  forall expd symt r symt', Blck_chck defs expd b symt = Ok (r, symt') -> r = RVoid.
Proof.
  intros Hall Hfree expd symt r symt' H. unfold Blck_chck, Blck_chck_with in H.
  inv_bind H. destruct a as [rtns symt1].
  destruct (SymTable.pop_until_mark symt1); [|discriminate]. injection H as <- _.
  revert Hfree Hstep. generalize (SymTable.mark symt) as s0.
  induction Hall as [|stmt rest Hstmt _ IH]; intros s0 Hfree H.
  - now injection H as <- _.
  - simpl in Hfree. apply andb_prop in Hfree as [Hs Hrest]. simpl in H.
    inv_bind H. destruct a as [stmt_rtns s1].
    apply (Hstmt Hs) in Hstep as ->. simpl in H. eapply IH; eassumption.
Qed.

Lemma Stmt_chck_return_free defs (s : Stmt) :
  return_free s = true ->
  forall expd symt r symt', Stmt_chck defs expd s symt = Ok (r, symt') -> r = RVoid.
Proof.
  induction s as [| | | |ifcds els IHarms IHels|? ? _|? _|? ? _|cond body IHbody|cond body IHbody
                 |expn| | | | |] using Stmt_nested_ind;
    intros Hfree expd symt r symt' H; simpl in H, Hfree; try discriminate.
  - unfold Asgn_chck in H. destruct (negb _); [discriminate|].
    destruct (SymTable.get_info _ _); [|discriminate]. inv_bind H.
    destruct (ty_ne _ _); [discriminate|]. now injection H as <- _.
  - unfold Ntro_chck in H. destruct (SymTable.is_redefining _ _); [discriminate|].
    inv_bind H. now injection H as <- _.
  - unfold Pleq_chck in H. destruct (negb _); [discriminate|].
    destruct (SymTable.get_info _ _); [|discriminate]. inv_bind H.
    destruct (_ && _); [now injection H as <- _|].
    destruct (_ && _); [now injection H as <- _ | discriminate].
  - unfold Mneq_chck in H. destruct (negb _); [discriminate|].
    destruct (SymTable.get_info _ _); [|discriminate]. inv_bind H.
    destruct (_ && _); [now injection H as <- _ | discriminate].
  - (* Cond *)
    apply andb_prop in Hfree as [Harms Helse]. unfold Cond_chck_with in H.
    destruct ifcds as [|[cond0 body0] arms]; [discriminate|].
    inversion IHarms as [|? ? Hbody0 _]; subst. simpl in Hbody0, Harms.
    apply andb_prop in Harms as [Hfree0 _].
    pose proof (Blck_chck_return_free defs body0 Hbody0 Hfree0) as Hb0.
    fold (Blck_chck defs) in H.
    inv_bind H. inv_bind H. destruct a0 as [r0 symt1].
    pose proof Hstep0 as Hr. apply Blck_chck_restores in Hr as [_ ->].
    pose proof (Hb0 _ _ _ _ Hstep0) as ->.
    rewrite (Cond_elifs_noop defs expd body0 RVoid symt Hstep0) in H. simpl in H.
    destruct els as [els_body|]; [|discriminate]. simpl in IHels.
    inv_bind H. destruct a0 as [r1 symt2].
    apply (Blck_chck_return_free defs els_body IHels Helse) in Hstep1 as ->.
    simpl in H. now injection H as <- _.
  - unfold Whil_chck_with in H. fold (Blck_chck defs) in H. inv_bind H.
    destruct (ty_ne _ _); [discriminate|]. inv_bind H. destruct a0 as [r0 symt1].
    apply (Blck_chck_return_free defs body IHbody Hfree) in Hstep0 as ->.
    simpl in H. now injection H as <- _.
  - unfold Rept_chck_with in H. fold (Blck_chck defs) in H. inv_bind H.
    destruct (ty_ne _ _); [discriminate|]. inv_bind H. destruct a0 as [r0 symt1].
    apply (Blck_chck_return_free defs body IHbody Hfree) in Hstep0 as ->.
    simpl in H. now injection H as <- _.
  - inv_bind H. now injection H as <- _.
  - now injection H as <- _.
  - unfold PCll_chck in H. inv_bind H. now injection H as <- _.
Qed.

(** A definition with no [return] statement in its body is never accepted,
    a procedure included: when its body checks, the behaviour is [Void] and
    [Defn::chck] raises "Definition body never returns." *)
Theorem Defn_chck_needs_a_return (defs : Defs) (d : Defn) :
  forallb return_free (body d) = true ->
  (forall r symt, Blck_chck defs (RType (ret_type d)) (body d) (args d) = Ok (r, symt) ->
     r = RVoid /\ Defn_chck defs d = Raise (DwislpyError "Definition body never returns.")) /\
  Defn_chck defs d <> Ok tt.
Proof.
  intros Hfree.
  assert (forall r symt,
            Blck_chck defs (RType (ret_type d)) (body d) (args d) = Ok (r, symt) -> r = RVoid)
    as Hvoid.
  { intros r symt. apply Blck_chck_return_free; [|assumption].
    apply Forall_forall. intros s _. apply Stmt_chck_return_free. }
  split.
  - intros r symt H. pose proof (Hvoid _ _ H) as ->. split; [reflexivity|].
    now rewrite (Defn_chck_rule _ _ _ _ H).
  - intros H. apply Defn_chck_accepts_iff in H as [symt H]. now apply Hvoid in H.
Qed.

(** [Defn::chck] accepts a definition exactly when its body always returns:
    the comparison of the returned type with the declared one cannot fail,
    since every [return] was checked against the declared type. *)
Theorem Defn_chck_accepts_iff_always_returns (defs : Defs) (d : Defn) :
  Defn_chck defs d = Ok tt <->
  exists T, Blck_chck defs (RType (ret_type d)) (body d) (args d) = Ok (RType T, args d).
Proof.
  split.
  - intros H. apply Defn_chck_accepts_iff in H as [symt H]. exists (ret_type d).
    pose proof H as Hr. apply Blck_chck_restores in Hr as [_ ->]. exact H.
  - intros [T H]. now apply Defn_chck_accepts_always_returning in H.
Qed.

Lemma Blck_chck_restores_table_witness :
  Blck_chck no_defs RVoid declare_and_print x_int_symt = Ok (RVoid, x_int_symt) /\
  x_int_symt = x_int_symt.
Proof.
  split; [reflexivity|].
  apply (Blck_chck_restores_table no_defs RVoid declare_and_print x_int_symt x_int_symt RVoid).
  reflexivity.
Defined.

Lemma Stmt_chck_table_witness :
  SymTable.pop_until_mark (SymTable.mark x_int_symt) = Some x_int_symt /\
  frmls (SymTable.mark x_int_symt) = [].
Proof.
  pose proof (Stmt_chck_table no_defs RVoid (Prnt [Lkup "x"]) (SymTable.mark x_int_symt)
                (SymTable.mark x_int_symt) RVoid eq_refl) as (_ & _ & Hpop & Hf).
  split; [exact Hpop | exact Hf].
Defined.

Lemma Expn_chck_reads_lookups_witness :
  Expn_chck no_defs x_int_symt (Plus (Lkup "x") (Ltrl (VInt 1))) =
  Expn_chck no_defs (SymTable.mark x_int_symt) (Plus (Lkup "x") (Ltrl (VInt 1))).
Proof.
  apply (Expn_chck_reads_lookups no_defs x_int_symt (SymTable.mark x_int_symt)).
  intros name. symmetry. apply SymTableFacts.get_info_mark.
Defined.

Lemma Cond_chck_elif_arms_inert_witness :
  Stmt_chck no_defs RVoid elif_minus SymTable.empty =
  Stmt_chck no_defs RVoid (Cond [(Ltrl (VBool false), [Pass])] (Some [Pass])) SymTable.empty.
Proof.
  apply (Cond_chck_elif_arms_inert no_defs RVoid (Ltrl (VBool false)) [Pass]
           [(Ltrl (VBool true), [Prnt [str_minus_str]])] (Some [Pass]) SymTable.empty).
  reflexivity.
Defined.




Lemma Blck_exec_stops_at_return_witness :
  Blck_exec no_defs no_body 0 ([Pass] ++ FRtn (Some (Ltrl (VInt 1))) :: [Prnt [Lkup "z"]])%list
            ∅ no_input = Ok (Some (VInt 1), ∅, no_input).
Proof.
  apply (Blck_exec_stops_at_return no_defs no_body 0 [Pass] [Prnt [Lkup "z"]]
           (FRtn (Some (Ltrl (VInt 1)))) ∅ ∅ ∅ no_input no_input no_input (VInt 1));
    reflexivity.
Defined.

Lemma IntC_StrC_eval_witness :
  Expn_eval no_defs no_body x_is_5 (IntC (StrC (Imus (Lkup "x")))) no_input =
    Ok (VInt (-5), no_input).
Proof.
  apply (IntC_StrC_eval no_defs no_body x_is_5 (Imus (Lkup "x")) no_input no_input (-5)).
  - unfold in_int_range. lia.
  - reflexivity.
Defined.

Lemma quiet_Expn_eval_keeps_console_witness :
  is_quiet (StrC (Plus (Lkup "x") (Ltrl (VInt 1)))) = true /\
  Expn_eval no_defs no_body x_is_5 (StrC (Plus (Lkup "x") (Ltrl (VInt 1)))) (mkIO ["7"] "out") =
    Ok (VStr "6", mkIO ["7"] "out") /\
  mkIO ["7"] "out" = mkIO ["7"] "out".
Proof.
  split; [reflexivity|]. split; [reflexivity|].
  apply (quiet_Expn_eval_keeps_console no_defs no_body x_is_5
           (StrC (Plus (Lkup "x") (Ltrl (VInt 1)))) eq_refl (mkIO ["7"] "out") (VStr "6")).
  reflexivity.
Defined.


Lemma compound_assignment_to_missing_name_witness :
  Stmt_exec no_defs no_body 0 (Pleq "n" (Plus (Lkup "n") (Lkup "x"))) x_is_5 no_input =
    Ok (None, <["n" := VInt (int_wrap 5)]> x_is_5, no_input) /\
  Stmt_exec no_defs no_body 0 (Mneq "n" (Plus (Lkup "n") (Lkup "x"))) x_is_5 no_input =
    Ok (None, <["n" := VInt (int_wrap (- 5))]> x_is_5, no_input).
Proof.
  apply (compound_assignment_to_missing_name no_defs no_body 0 "n"
           (Plus (Lkup "n") (Lkup "x")) x_is_5 no_input no_input 5); reflexivity.
Defined.

Lemma Defn_chck_needs_a_return_witness :
  (forallb return_free (body p_defn) = true) /\
  Defn_chck no_defs p_defn = Raise (DwislpyError "Definition body never returns.").
Proof.
  split; [reflexivity|].
  destruct (Defn_chck_needs_a_return no_defs p_defn eq_refl) as [H _].
  apply (H RVoid (args p_defn)). reflexivity.
Defined.
